(** * M4RL surrogate model: pharmacokinetic integrators, surrogate prediction
    and the reinforcement-learning environment

    Shallow embedding of [2_surrogate_model/surrogate_model_verification.py]
    (classes [DNN], [RL_dNN] and [Env]).

    Numbers.  The program computes with binary floating point (float32 torch
    tensors, float64 numpy scalars).  Here every number is an exact rational
    ([Q]); rounding, infinities and NaN are outside the model.  The
    transcendental functions [torch.exp] and [torch.nn.Tanh] are taken as
    uninterpreted functions on [Q].  The one exception is the substep count
    of the integrators, [int(interval/self.dt_cyto)], which depends on the
    rounding of the quotient: it is also given on binary64 numbers
    ([itera_cyto_binary64]).

    Errors.  A Python exception ([IndexError], [ZeroDivisionError], the
    [RuntimeError] of a negative tensor dimension) is the result [None]. *)

From Stdlib Require Import PrimFloat FloatOps SpecFloat.
From Stdlib Require Import ZArith QArith Qround Qpower Lia Lqa Sorted.
From stdpp Require Import base option list.

Local Open Scope Q_scope.

(** ** Python and tensor primitives *)

(** [int(x)] on a float: truncation toward zero. *)
Definition py_int (x : Q) : Z := Z.quot (Qnum x) (Zpos (Qden x)).

(** [x / y] on Python floats: [ZeroDivisionError] when [y] is zero.  The
    quotient is the exact one; the program rounds it to binary64. *)
Definition py_div (x y : Q) : option Q :=
  if Qeq_bool y 0 then None else Some (x / y).

(** [torch.empty(n)]: a one-dimensional tensor of [n] uninitialised cells (the
    cells are written before they are read; they hold [0] here).  A negative
    size is refused. *)
Definition torch_empty (n : Z) : option (list Q) :=
  if (n <? 0)%Z then None else Some (replicate (Z.to_nat n) 0).

(** [c[i] = v] for an index [i >= 0]: out of range is an [IndexError]. *)
Definition setitem (c : list Q) (i : nat) (v : Q) : option (list Q) :=
  if decide (i < length c)%nat then Some (<[i:=v]> c) else None.

(** [for k in range(start, start + count): s = body(k, s)]. *)
Fixpoint for_range {S : Type} (start count : nat)
    (body : nat -> S -> option S) (s : S) : option S :=
  match count with
  | O => Some s
  | Datatypes.S count' => s' ← body start s; for_range (Datatypes.S start) count' body s'
  end.

(** [l[-1]] on a list or a one-dimensional tensor. *)
Definition py_last {A : Type} (l : list A) : option A := last l.

(** [l[i]] for a Python integer index: negative indices count from the end. *)
Definition py_index {A : Type} (l : list A) (i : Z) : option A :=
  if (0 <=? i)%Z then l !! Z.to_nat i
  else if (- Z.of_nat (length l) <=? i)%Z then l !! Z.to_nat (Z.of_nat (length l) + i)
  else None.

(** The comparisons [x < y] and [x >= y] (the latter is [Qle_bool y x]). *)
Definition Qlt_bool (x y : Q) : bool := negb (Qle_bool y x).

(** [torch.sum] / [np.sum] of a one-dimensional array. *)
Definition vsum (l : list Q) : Q := foldr Qplus 0 l.

(** [np.sum] of a two-dimensional array (all entries). *)
Definition msum (m : list (list Q)) : Q := vsum (map vsum m).

(** ** The network [DNN] *)

(** One [torch.nn.Linear]: [weight] has one row per output feature. *)
Record Linear := mkLinear { weight : list (list Q); bias : list Q }.

(** [DNN]: [hidden] are the layers followed by the activation, [final] is the
    last linear layer; [training] is the mode flag of [torch.nn.Module]
    (cleared by [eval()]).  The weights come from
    [surrogate_model/dnn_TC_model1.pth]. *)
Record DNN := mkDNN { hidden : list Linear; final : Linear; training : bool }.

(** ** The surrogate model [RL_dNN] *)

Record RL_dNN := mkRL_dNN {
  q_c : Q; eta_c : Q; mu_c : Q;
  q_i : Q; eta_i : Q; mu_i : Q;
  (** the trained log-parameters of [surrogate_model/additional_params.pth]:
      [log_p_cyto k] is [self.log_p_cyto[k]] *)
  log_p_cyto : nat -> Q;
  dnn_TC : DNN;
  (** [lb] and [ub] are the two-element lists [[lb[0], lb[1]]] *)
  lb : Q * Q; ub : Q * Q;
  c_max : Q;
  dt_cyto : Q;
  CSF1RI_cum_max : Q
}.

Section Surrogate.

(** [torch.exp] and the activation [torch.nn.Tanh]. *)
Variable torch_exp : Q -> Q.
Variable torch_tanh : Q -> Q.

(** [RL_dNN.__init__]: the loaded parameters are arguments. *)
Definition RL_dNN_init (loaded_log_p_cyto : nat -> Q) (loaded_dnn : DNN)
    (lb ub : Q * Q) (dc dt_cyto : Q) : option RL_dNN :=
  c_max ← py_div 1 dc;
  cum_max ← py_div 200 dt_cyto;
  Some {| q_c := 8 # 10; eta_c := 2 # 1000; mu_c := 2 # 1000;
          q_i := 8 # 10; eta_i := 2 # 1000; mu_i := 2 # 1000;
          log_p_cyto := loaded_log_p_cyto;
          dnn_TC := loaded_dnn;
          lb := lb; ub := ub;
          c_max := c_max;
          dt_cyto := dt_cyto;
          CSF1RI_cum_max := cum_max |}.

(** *** ODE solution of CSF1R_I *)
Definition f_CSF1RI (self : RL_dNN) (c_CSF1RI_0 dose_c interval : Q)
    : option (list Q) :=
  q ← py_div interval (dt_cyto self);
  let itera_cyto := py_int q in
  c ← torch_empty itera_cyto;
  let a := torch_exp (log_p_cyto self 10) * q_c self in
  let b := torch_exp (log_p_cyto self 11) * eta_c self
           + torch_exp (log_p_cyto self 12) * mu_c self in
  c ← setitem c 0 ((c_CSF1RI_0 - a * dose_c / (a + b))
                     * torch_exp (- (a + b) * dt_cyto self)
                   + a * dose_c / (a + b));
  for_range 0 (Z.to_nat (itera_cyto - 1))
    (fun k c =>
       ck ← c !! k;
       setitem c (k + 1) ((ck - a * dose_c / (a + b))
                            * torch_exp (- (a + b) * dt_cyto self)
                          + a * dose_c / (a + b)))
    c.

(** *** ODE solution of IGF1R_I *)
Definition f_IGF1RI (self : RL_dNN) (c_IGF1RI_0 dose_I C_T interval : Q)
    : option (list Q) :=
  q ← py_div interval (dt_cyto self);
  let itera_cyto := py_int q in
  c ← torch_empty itera_cyto;
  let a := torch_exp (log_p_cyto self 13) * q_i self in
  let b := torch_exp (log_p_cyto self 14) * eta_i self
           + torch_exp (log_p_cyto self 15) * mu_i self * C_T in
  c ← setitem c 0 ((c_IGF1RI_0 - a * dose_I / (a + b))
                     * torch_exp (- (a + b) * dt_cyto self)
                   + a * dose_I / (a + b));
  for_range 0 (Z.to_nat (itera_cyto - 1))
    (fun k c =>
       ck ← c !! k;
       setitem c (k + 1) ((ck - a * dose_I / (a + b))
                            * torch_exp (- (a + b) * dt_cyto self)
                          + a * dose_I / (a + b)))
    c.

(** *** DNN for the Fokker-Planck equation of the tumor cells *)

Definition dot (w x : list Q) : Q := vsum (zip_with Qmult w x).

(** [torch.nn.Linear.forward] on one row: [x W^T + b]. *)
Definition Linear_forward (L : Linear) (x : list Q) : list Q :=
  zip_with (fun w b => dot x w + b) (weight L) (bias L).

(** [DNN.forward]: the [torch.nn.Sequential] of the hidden layers, each
    followed by the activation, and the final layer; [x] is a batch of rows. *)
Definition DNN_forward (net : DNN) (x : list (list Q)) : list (list Q) :=
  map (Linear_forward (final net))
      (foldl (fun h L => map (fun row => map torch_tanh (Linear_forward L row)) h)
             x (hidden net)).

(** [torch.cat([t, C, dose_c, dose_cum, dose_I], dim=1)] of five columns. *)
Definition cat_columns (t C dose_c dose_cum dose_I : list Q) : list (list Q) :=
  zip_with cons t
    (zip_with cons C
       (zip_with cons dose_c
          (zip_with (fun x y => [x; y]) dose_cum dose_I))).

(** Every argument of [net_u_CC] is a column of shape [(n, 1)], given by its
    [n] entries. *)
Definition net_u_CC (self : RL_dNN) (C t dose_c dose_cum dose_I : list Q)
    : list (list Q) :=
  let t := map (fun x => 2 * (x - snd (lb self)) / (snd (ub self) - snd (lb self)) - 1) t in
  let C := map (fun x => 2 * (x - fst (lb self)) / (fst (ub self) - fst (lb self)) - 1) C in
  let dose_c := map (fun x => 2 * (x - 0) - 1) dose_c in
  let dose_cum := map (fun x => 2 * (x - 0) / CSF1RI_cum_max self - 1) dose_cum in
  let dose_I := map (fun x => 2 * (x - 0) - 1) dose_I in
  let HTC := cat_columns t C dose_c dose_cum dose_I in
  DNN_forward (dnn_TC self) HTC.

(** [torch.ones_like(c)] and [x * torch.ones_like(c)]. *)
Definition ones_like (c : list Q) : list Q := map (fun _ => 1) c.
Definition broadcast (x : Q) (c : list Q) : list Q := map (Qmult x) (ones_like c).

(** [u[u < 0] = 0]. *)
Definition clamp_negative (u : list (list Q)) : list (list Q) :=
  map (map (fun x => if Qlt_bool x 0 then 0 else x)) u.

(** [self.dnn_TC.eval()]. *)
Definition eval_mode (self : RL_dNN) : RL_dNN :=
  {| q_c := q_c self; eta_c := eta_c self; mu_c := mu_c self;
     q_i := q_i self; eta_i := eta_i self; mu_i := mu_i self;
     log_p_cyto := log_p_cyto self;
     dnn_TC := {| hidden := hidden (dnn_TC self); final := final (dnn_TC self);
                  training := false |};
     lb := lb self; ub := ub self; c_max := c_max self;
     dt_cyto := dt_cyto self; CSF1RI_cum_max := CSF1RI_cum_max self |}.

(** *** Predict the Fokker-Planck density for the RL environment

    [c] is the column of concentration bins.  The result is the model object
    after the call and the returned tuple
    [(uTC_pred, CSF1RI_cum, c_CSF1RI_k, c_IGF1RI_k)]. *)
Definition predict_DRL_FP (self : RL_dNN) (c : list Q)
    (t dose_c CSF1RI_cum dose_I c_CSF1RI_0 c_IGF1RI_0 c_T_0 interval : Q)
    : option (RL_dNN * (list (list Q) * Q * Q * Q)) :=
  let self := eval_mode self in
  let t_k := broadcast t c in
  c_CSF1RI ← f_CSF1RI self c_CSF1RI_0 dose_c interval;
  c_IGF1RI ← f_IGF1RI self c_IGF1RI_0 dose_I c_T_0 interval;
  let CSF1RI_cum := CSF1RI_cum + vsum c_CSF1RI in
  c_CSF1RI_last ← py_last c_CSF1RI;
  let c_CSF1RI_k := broadcast c_CSF1RI_last c in
  let CSF1RI_cum_k := broadcast CSF1RI_cum c in
  c_IGF1RI_last ← py_last c_IGF1RI;
  let c_IGF1RI_k := broadcast c_IGF1RI_last c in
  let uTC_pred := net_u_CC self c t_k c_CSF1RI_k CSF1RI_cum_k c_IGF1RI_k in
  c_CSF1RI_k ← py_last c_CSF1RI_k;
  c_IGF1RI_k ← py_last c_IGF1RI_k;
  let uTC_pred := clamp_negative uTC_pred in
  Some (self, (uTC_pred, CSF1RI_cum, c_CSF1RI_k, c_IGF1RI_k)).

End Surrogate.

(** ** The RL environment [Env] *)

(** [initial] is the three-element list
    [[initial_CSF1RI, initial_IGF1RI, initial_TC]]; an entry of [state] is the
    two-element list [[state_survival, survival_prob_delta]]. *)
Record Env := mkEnv {
  state : list (Q * Q);
  action_c_space : list Q;
  action_I_space : list Q;
  surrogat_model : RL_dNN;
  initial : Q * Q * Q;
  predict_CSF1RI_list : list Q;
  predict_IGF1RI_list : list Q;
  predict_TC_list : list Q;
  predict_CSF1RI_cum : Q;
  CSF1RI_dose_cum : Q;
  last_state_survival : Q;
  time : Q
}.

(** [Env.__init__]. *)
Definition Env_init (model : RL_dNN) (initial : Q * Q * Q) : Env :=
  {| state := [];
     action_c_space := [0; 1];
     action_I_space := [0; 1];
     surrogat_model := model;
     initial := initial;
     predict_CSF1RI_list := [] ++ [fst (fst initial)];
     predict_IGF1RI_list := [] ++ [snd (fst initial)];
     predict_TC_list := [] ++ [snd initial];
     predict_CSF1RI_cum := 0;
     CSF1RI_dose_cum := 0;
     last_state_survival := 0;
     time := 0 |}.

(** [Env.reset]. *)
Definition reset (self : Env) : Env :=
  {| state := [];
     action_c_space := action_c_space self;
     action_I_space := action_I_space self;
     surrogat_model := surrogat_model self;
     initial := initial self;
     predict_CSF1RI_list := [] ++ [fst (fst (initial self))];
     predict_IGF1RI_list := [] ++ [snd (fst (initial self))];
     predict_TC_list := [] ++ [snd (initial self)];
     predict_CSF1RI_cum := 0;
     CSF1RI_dose_cum := 0;
     last_state_survival := 0;
     time := 0 |}.

(** The constants of [Env.step]. *)
Definition eps : Q := 1 # 10000000.
Definition death_threshold : Q := 2 # 10.
Definition cure_threshold : Q := 99 # 100.

(** [rl_FP_TC / (np.sum(rl_FP_TC) + 1e-7)]. *)
Definition normalization (rl_FP_TC : list (list Q)) : list (list Q) :=
  map (map (fun x => x / (msum rl_FP_TC + eps))) rl_FP_TC.

(** [np.sum(rl_FP_TC_norm * cc)]: [cc] is a column, one entry per row. *)
Definition weighted_sum (rl_FP_TC_norm : list (list Q)) (cc : list Q) : Q :=
  msum (zip_with (fun row c => map (fun x => x * c) row) rl_FP_TC_norm cc).

(** [np.sum(rl_FP_TC[:-3, :]) / (prob_sum + 1e-7)].  The guard [1e-7] is
    added exactly; in the floats of the program a large [prob_sum] absorbs
    it. *)
Definition survival_prob_of (rl_FP_TC : list (list Q)) : Q :=
  let prob_sum := msum rl_FP_TC in
  msum (take (length rl_FP_TC - 3) rl_FP_TC) / (prob_sum + eps).

Definition death_prob_of (rl_FP_TC : list (list Q)) : Q :=
  1 - survival_prob_of rl_FP_TC.

(** [np.sum(rl_FP_TC[:1, :]) / (prob_sum + 1e-7)], with the guard as in
    [survival_prob_of]. *)
Definition cure_prob_of (rl_FP_TC : list (list Q)) : Q :=
  let prob_sum := msum rl_FP_TC in
  msum (take 1 rl_FP_TC) / (prob_sum + eps).

(** [(self.action_c_space.shape[0] - 1) + 1e-7]. *)
Definition dose_punish_of (self : Env) : Q :=
  inject_Z (Z.of_nat (length (action_c_space self)) - 1) + eps.

(** The reward function of [Env.step] (from [reward = 0.1] to the end):
    the reward and the flag [done]. *)
Definition reward_function (death_prob cure_prob survival_prob dose_punish : Q)
    (action_c action_I : Z) (lamda time CSF1RI_dose_cum : Q) : Q * bool :=
  let reward := 1 # 10 in
  let '(reward, done) :=
    if Qle_bool death_threshold death_prob then (- (1 # 10), true)
    else if Qle_bool cure_threshold cure_prob then (reward + 1, true)
    else (reward, false) in
  if negb done then
    let reward :=
      if Qle_bool (death_threshold * (5 # 10)) death_prob
      then reward - (1 # 10) * (dose_punish - inject_Z action_c)
      else if (action_c =? 0)%Z then reward + (5 # 100)
      else reward in
    let reward :=
      if Qle_bool survival_prob (9 # 10)
      then reward - (1 # 10) * (dose_punish - inject_Z action_I)
      else if (action_I =? 0)%Z then reward + (5 # 100)
      else reward in
    let reward :=
      if Qlt_bool (9 # 10) survival_prob
      then reward + lamda * (time - CSF1RI_dose_cum)
      else reward in
    (reward, done)
  else (reward, done).

Section Environment.

Variable torch_exp : Q -> Q.
Variable torch_tanh : Q -> Q.

(** [Env.step]: the environment after the call and the returned tuple
    [(last_state, reward, done, now_state)]. *)
Definition step (self : Env) (action_c action_I epi : Z) (predict_dt : Q)
    (cc : list Q) (lamda : Q)
    : option (Env * (list (Q * Q) * Q * bool * list (Q * Q))) :=
  let last_state := state self in
  let time := time self + predict_dt in
  dose_c ← py_index (action_c_space self) action_c;
  dose_I ← py_index (action_I_space self) action_I;
  let CSF1RI_dose_cum := CSF1RI_dose_cum self + dose_c * predict_dt in
  c_CSF1RI_0 ← py_last (predict_CSF1RI_list self);
  c_IGF1RI_0 ← py_last (predict_IGF1RI_list self);
  c_T_0 ← py_last (predict_TC_list self);
  '(model, (rl_FP_TC, c_CSF1RI_cum, c_CSF1RI, c_IGF1RI)) ←
    predict_DRL_FP torch_exp torch_tanh (surrogat_model self) cc time dose_c
      (predict_CSF1RI_cum self) dose_I c_CSF1RI_0 c_IGF1RI_0 c_T_0 predict_dt;
  let rl_FP_TC_norm := normalization rl_FP_TC in
  let predict_CSF1RI_list := predict_CSF1RI_list self ++ [c_CSF1RI] in
  let predict_IGF1RI_list := predict_IGF1RI_list self ++ [c_IGF1RI] in
  let predict_TC_list := predict_TC_list self ++ [weighted_sum rl_FP_TC_norm cc] in
  let survival_prob := survival_prob_of rl_FP_TC in
  let death_prob := 1 - survival_prob in
  let cure_prob := cure_prob_of rl_FP_TC in
  let dose_punish := dose_punish_of self in
  let state_survival := (survival_prob - (1 - death_threshold)) / death_threshold in
  let survival_prob_delta :=
    if (epi =? 0)%Z then 0 else state_survival - last_state_survival self in
  let state := state self ++ [(state_survival, survival_prob_delta)] in
  let now_state := state in
  let '(reward, done) :=
    reward_function death_prob cure_prob survival_prob dose_punish
      action_c action_I lamda time CSF1RI_dose_cum in
  Some ({| state := state;
           action_c_space := action_c_space self;
           action_I_space := action_I_space self;
           surrogat_model := model;
           initial := initial self;
           predict_CSF1RI_list := predict_CSF1RI_list;
           predict_IGF1RI_list := predict_IGF1RI_list;
           predict_TC_list := predict_TC_list;
           predict_CSF1RI_cum := c_CSF1RI_cum;
           CSF1RI_dose_cum := CSF1RI_dose_cum;
           last_state_survival := state_survival;
           time := time |},
        (last_state, reward, done, now_state)).

(** A driver's calls on one environment.  An exception in [step] ends the
    run. *)
Inductive call :=
  | CallReset
  | CallStep (action_c action_I epi : Z) (predict_dt : Q) (cc : list Q) (lamda : Q).

Fixpoint run (self : Env) (calls : list call) : option Env :=
  match calls with
  | [] => Some self
  | CallReset :: calls => run (reset self) calls
  | CallStep action_c action_I epi predict_dt cc lamda :: calls =>
      r ← step self action_c action_I epi predict_dt cc lamda;
      run (fst r) calls
  end.

End Environment.

(** ** The substep count in binary64

    [interval] and [self.dt_cyto] are Python floats, so the count of line 99,
    [itera_cyto = int(interval/self.dt_cyto)], is the truncation of a
    binary64 quotient, which is rounded to nearest.  This part takes that
    line on binary64 numbers; the values of the trajectory stay rationals. *)

(** The exact value of a finite binary64 number. *)
Definition float_value (x : float) : option Q :=
  match Prim2SF x with
  | S754_zero _ => Some 0
  | S754_finite s m e =>
      let magnitude :=
        match e with
        | Z0 => inject_Z (Zpos m)
        | Zpos p => inject_Z (Zpos m * 2 ^ Zpos p)
        | Zneg p => Zpos m # 2 ^ p
        end in
      Some (if s then - magnitude else magnitude)
  | S754_infinity _ | S754_nan => None
  end.

(** [int(x)] on a Python float: its value truncated toward zero; an infinity
    is an [OverflowError] and a NaN a [ValueError]. *)
Definition float_int (x : float) : option Z := py_int <$> float_value x.

(** Line 99, [int(interval/self.dt_cyto)]: a zero divisor is a
    [ZeroDivisionError]. *)
Definition itera_cyto_binary64 (interval dt_cyto : float) : option Z :=
  if PrimFloat.eqb dt_cyto 0 then None
  else float_int (PrimFloat.div interval dt_cyto).

(** Lines 100 to 106 of [f_CSF1RI]: the allocation, the first value and the
    loop, from the count [itera_cyto]. *)
Definition f_CSF1RI_steps (torch_exp : Q -> Q) (self : RL_dNN)
    (c_CSF1RI_0 dose_c : Q) (itera_cyto : Z) : option (list Q) :=
  c ← torch_empty itera_cyto;
  let a := torch_exp (log_p_cyto self 10) * q_c self in
  let b := torch_exp (log_p_cyto self 11) * eta_c self
           + torch_exp (log_p_cyto self 12) * mu_c self in
  c ← setitem c 0 ((c_CSF1RI_0 - a * dose_c / (a + b))
                     * torch_exp (- (a + b) * dt_cyto self)
                   + a * dose_c / (a + b));
  for_range 0 (Z.to_nat (itera_cyto - 1))
    (fun k c =>
       ck ← c !! k;
       setitem c (k + 1) ((ck - a * dose_c / (a + b))
                            * torch_exp (- (a + b) * dt_cyto self)
                          + a * dose_c / (a + b)))
    c.

(** Lines 111 to 117 of [f_IGF1RI], from the count [itera_cyto]. *)
Definition f_IGF1RI_steps (torch_exp : Q -> Q) (self : RL_dNN)
    (c_IGF1RI_0 dose_I C_T : Q) (itera_cyto : Z) : option (list Q) :=
  c ← torch_empty itera_cyto;
  let a := torch_exp (log_p_cyto self 13) * q_i self in
  let b := torch_exp (log_p_cyto self 14) * eta_i self
           + torch_exp (log_p_cyto self 15) * mu_i self * C_T in
  c ← setitem c 0 ((c_IGF1RI_0 - a * dose_I / (a + b))
                     * torch_exp (- (a + b) * dt_cyto self)
                   + a * dose_I / (a + b));
  for_range 0 (Z.to_nat (itera_cyto - 1))
    (fun k c =>
       ck ← c !! k;
       setitem c (k + 1) ((ck - a * dose_I / (a + b))
                            * torch_exp (- (a + b) * dt_cyto self)
                          + a * dose_I / (a + b)))
    c.

(** [f_CSF1RI] and [f_IGF1RI] with the count of line 99 taken in binary64:
    [interval] is the argument and [dt_cyto] the attribute [self.dt_cyto] as
    binary64 numbers; the value of the latter in the update is
    [dt_cyto self]. *)
Definition f_CSF1RI_binary64 (torch_exp : Q -> Q) (self : RL_dNN)
    (c_CSF1RI_0 dose_c : Q) (interval dt_cyto : float) : option (list Q) :=
  itera_cyto ← itera_cyto_binary64 interval dt_cyto;
  f_CSF1RI_steps torch_exp self c_CSF1RI_0 dose_c itera_cyto.

Definition f_IGF1RI_binary64 (torch_exp : Q -> Q) (self : RL_dNN)
    (c_IGF1RI_0 dose_I C_T : Q) (interval dt_cyto : float) : option (list Q) :=
  itera_cyto ← itera_cyto_binary64 interval dt_cyto;
  f_IGF1RI_steps torch_exp self c_IGF1RI_0 dose_I C_T itera_cyto.

(** ** Specification-side definitions *)

(** The closed-form update of the pharmacokinetic recurrence,
    [c' = (c - a*dose/(a+b)) * exp(-(a+b)*dt) + a*dose/(a+b)]. *)
Definition closed_form (torch_exp : Q -> Q) (a b dose dt c : Q) : Q :=
  (c - a * dose / (a + b)) * torch_exp (- (a + b) * dt) + a * dose / (a + b).

(** The rates [a] and [b] of the two channels. *)
Definition rate_a_CSF1RI (torch_exp : Q -> Q) (self : RL_dNN) : Q :=
  torch_exp (log_p_cyto self 10) * q_c self.
Definition rate_b_CSF1RI (torch_exp : Q -> Q) (self : RL_dNN) : Q :=
  torch_exp (log_p_cyto self 11) * eta_c self
  + torch_exp (log_p_cyto self 12) * mu_c self.
Definition rate_a_IGF1RI (torch_exp : Q -> Q) (self : RL_dNN) : Q :=
  torch_exp (log_p_cyto self 13) * q_i self.
Definition rate_b_IGF1RI (torch_exp : Q -> Q) (self : RL_dNN) (C_T : Q) : Q :=
  torch_exp (log_p_cyto self 14) * eta_i self
  + torch_exp (log_p_cyto self 15) * mu_i self * C_T.

(** The first [n] iterates of an update from [c]: [upd c], [upd (upd c)], ... *)
Fixpoint trajectory (upd : Q -> Q) (c : Q) (n : nat) : list Q :=
  match n with
  | O => []
  | S n' => upd c :: trajectory upd (upd c) n'
  end.

(** A trajectory obeys the recurrence from [c0]: its first value is the
    update of [c0] and every later value is the update of its predecessor. *)
Definition obeys_recurrence (upd : Q -> Q) (c0 : Q) (c : list Q) : Prop :=
  c !! 0%nat = Some (upd c0) /\
  forall j x, c !! j = Some x -> (S j < length c)%nat -> c !! S j = Some (upd x).

(** [z] is [x] truncated toward zero. *)
Definition truncates_toward_zero (x : Q) (z : Z) : Prop :=
  (0 <= x -> inject_Z z <= x /\ x < inject_Z z + 1) /\
  (x <= 0 -> inject_Z z - 1 < x /\ x <= inject_Z z).

(** The recurrence over an interval with substep [dt]: the trajectory of
    [int(interval / dt)] iterates of the closed-form update with rates [a]
    and [b], when there is at least one substep. *)
Definition recurrence (torch_exp : Q -> Q) (a b dose dt c0 interval : Q)
    : option (list Q) :=
  q ← py_div interval dt;
  if (1 <=? py_int q)%Z
  then Some (trajectory (closed_form torch_exp a b dose dt) c0 (Z.to_nat (py_int q)))
  else None.

(** The loaded parameters of a model object: the kinetic log-parameters and
    the weights and biases of the network. *)
Definition ModelParameters (self : RL_dNN)
    : (nat -> Q) * list Linear * Linear :=
  (log_p_cyto self, hidden (dnn_TC self), final (dnn_TC self)).

(** The CSF1R-inhibitor outputs of a [predict_DRL_FP] result: the cumulative
    exposure and the end-of-interval concentration. *)
Definition CSF1RI_outputs (r : RL_dNN * (list (list Q) * Q * Q * Q)) : Q * Q :=
  let '(_, (_, CSF1RI_cum, c_CSF1RI_k, _)) := r in (CSF1RI_cum, c_CSF1RI_k).

(** The density vector produced in [Env.step]: the first component of the
    tuple that [predict_DRL_FP] returns there. *)
Definition step_density (torch_exp torch_tanh : Q -> Q) (self : Env)
    (action_c action_I : Z) (predict_dt : Q) (cc : list Q)
    : option (list (list Q)) :=
  dose_c ← py_index (action_c_space self) action_c;
  dose_I ← py_index (action_I_space self) action_I;
  c_CSF1RI_0 ← py_last (predict_CSF1RI_list self);
  c_IGF1RI_0 ← py_last (predict_IGF1RI_list self);
  c_T_0 ← py_last (predict_TC_list self);
  r ← predict_DRL_FP torch_exp torch_tanh (surrogat_model self) cc
         (time self + predict_dt) dose_c (predict_CSF1RI_cum self) dose_I
         c_CSF1RI_0 c_IGF1RI_0 c_T_0 predict_dt;
  Some (fst (fst (fst (snd r)))).

(** The first feature of the observation that [Env.step] records for a
    density: [(survival_prob - (1 - death_threshold)) / death_threshold]. *)
Definition state_survival_of (rl_FP_TC : list (list Q)) : Q :=
  (survival_prob_of rl_FP_TC - (1 - death_threshold)) / death_threshold.

(** The lengths of the three concentration histories. *)
Definition history_lengths (self : Env) : nat * nat * nat :=
  (length (predict_CSF1RI_list self), length (predict_IGF1RI_list self),
   length (predict_TC_list self)).

(** The largest index of the action space, [action_c_space.shape[0] - 1]. *)
Definition max_action_index (self : Env) : Q :=
  inject_Z (Z.of_nat (length (action_c_space self)) - 1).

(** An environment as [Env.__init__], [reset] and [step] leave it: the two
    action spaces are [[0.0, 1.0]] and no history is empty. *)
Definition constructed (self : Env) : Prop :=
  action_c_space self = [0; 1] /\ action_I_space self = [0; 1] /\
  predict_CSF1RI_list self <> [] /\ predict_IGF1RI_list self <> [] /\
  predict_TC_list self <> [].

(** The density mass outside the [k] top-most bins over the total mass, for a
    trailing-bin count [k] chosen by the caller. *)
Definition survival_excluding (k : nat) (rl_FP_TC : list (list Q)) : Q :=
  msum (take (length rl_FP_TC - k) rl_FP_TC) / msum rl_FP_TC.

(** The weighted mean taken directly and divided by the unnormalised sum. *)
Definition direct_mean (v : list (list Q)) (c : list Q) : Q :=
  weighted_sum v c / msum v.



(** ** A small concrete model

    A model object with the constants of [RL_dNN.__init__], the substep size
    [1/48] of [main], a network of one linear layer and rational stand-ins
    for [torch.exp] and the activation; used to run the definitions. *)

Definition exp_standin (x : Q) : Q := Qred (1 + x + x * x / 2).
Definition tanh_standin (x : Q) : Q := x.

(** The output of the network on a row [[t, C, dose_c, dose_cum, dose_I]] is
    its entry [C]; with the bounds of [small_model] that is the bin value
    minus one. *)
Definition small_dnn : DNN :=
  {| hidden := [];
     final := {| weight := [[0; 1; 0; 0; 0]]; bias := [0] |};
     training := true |}.

Definition small_model : RL_dNN :=
  {| q_c := 8 # 10; eta_c := 2 # 1000; mu_c := 2 # 1000;
     q_i := 8 # 10; eta_i := 2 # 1000; mu_i := 2 # 1000;
     log_p_cyto := fun _ => 0;
     dnn_TC := small_dnn;
     lb := (0, 1 # 48); ub := (2, 200);
     c_max := 100;
     dt_cyto := 1 # 48;
     CSF1RI_cum_max := 9600 |}.

Definition small_env : Env := Env_init small_model (0, 0, 58 # 100).

(** The substep size of [main], [dt_cyto = 1/48], as a binary64 number. *)
Definition dt_cyto_main : float := (1 / 48)%float.

(** [small_model] with the substep size as the program holds it: the value
    of [dt_cyto_main], that is [6004799503160661 / 2^58], and
    [200 / dt_cyto], which is [9600] in binary64. *)
Definition binary64_model : RL_dNN :=
  {| q_c := 8 # 10; eta_c := 2 # 1000; mu_c := 2 # 1000;
     q_i := 8 # 10; eta_i := 2 # 1000; mu_i := 2 # 1000;
     log_p_cyto := fun _ => 0;
     dnn_TC := small_dnn;
     lb := (0, 1 # 48); ub := (2, 200);
     c_max := 100;
     dt_cyto := 6004799503160661 # 288230376151711744;
     CSF1RI_cum_max := 9600 |}.

(** What the constructor builds with the substep size [-1/48]. *)
Definition backward_model : RL_dNN :=
  {| q_c := 8 # 10; eta_c := 2 # 1000; mu_c := 2 # 1000;
     q_i := 8 # 10; eta_i := 2 # 1000; mu_i := 2 # 1000;
     log_p_cyto := fun _ => 0;
     dnn_TC := small_dnn;
     lb := (0, 1 # 48); ub := (2, 200);
     c_max := 100;
     dt_cyto := - (1 # 48);
     CSF1RI_cum_max := - (9600) |}.

(** ** Survival curves: [convert_to_time_event] and the loop of [main] *)

(** Convert a survival rate sequence to time and event: the lists [time] and
    [event].  [int(np.floor(x))] is [Qfloor x]. *)
Definition convert_to_time_event (survival_rate : list Q) : option (list Z * list Z) :=
  let n := Z.of_nat (length survival_rate) in
  '(time, event, survival_num) ←
    for_range 0 (Z.to_nat (n - 1))
      (fun i '(time, event, survival_num) =>
         r ← survival_rate !! i;
         let cut_num := (survival_num - Qfloor (r * 100))%Z in
         let cut_num := if (cut_num <? 0)%Z then 0%Z else cut_num in
         let survival_num := (survival_num - cut_num)%Z in
         '(time, event) ←
           for_range 0 (Z.to_nat cut_num)
             (fun j '(time, event) =>
                Some (time ++ [(Z.of_nat i + 1)%Z], event ++ [1%Z]))
             (time, event);
         Some (time, event, survival_num))
      ([], [], 100%Z);
  for_range 0 (Z.to_nat survival_num)
    (fun i '(time, event) => Some (time ++ [n], event ++ [0%Z]))
    (time, event).

(** The loop of [main] over [ABM_survival_rate] and [Pred_survival_rate]
    before [convert_to_time_event]:
    [rate[0] = 1], then for [j] from [1]: [rate[j] = 1] if [j <= grace], and
    [rate[j] = rate[j-1]] if [rate[j] > rate[j-1]].  [grace] is [14] for the
    ABM rates and [int(28 / predict_dt)] for the predicted rates. *)
Definition main_survival_rate_loop (grace : Z) (survival_rate : list Q)
    : option (list Q) :=
  rate ← setitem survival_rate 0 1;
  for_range 1 (length rate - 1)
    (fun j rate =>
       rate ← (if (Z.of_nat j <=? grace)%Z then setitem rate j 1 else Some rate);
       rj ← rate !! j;
       rp ← rate !! (j - 1)%nat;
       if Qlt_bool rp rj then setitem rate j rp else Some rate)
    rate.

(** ** Further specification-side definitions *)

(** The matrix [HTC] that [net_u_CC] hands to the network. *)
Definition net_u_CC_input (self : RL_dNN) (C t dose_c dose_cum dose_I : list Q)
    : list (list Q) :=
  cat_columns
    (map (fun x => 2 * (x - snd (lb self)) / (snd (ub self) - snd (lb self)) - 1) t)
    (map (fun x => 2 * (x - fst (lb self)) / (fst (ub self) - fst (lb self)) - 1) C)
    (map (fun x => 2 * (x - 0) - 1) dose_c)
    (map (fun x => 2 * (x - 0) / CSF1RI_cum_max self - 1) dose_cum)
    (map (fun x => 2 * (x - 0) - 1) dose_I).

(** No entry of a two-dimensional array is negative. *)
Definition nonneg_rows (u : list (list Q)) : Prop :=
  Forall (Forall (fun x => 0 <= x)) u.

(** No call of the run gives the CSF1R inhibitor: every [step] has
    [action_c = 0]. *)
Definition never_doses_CSF1RI (calls : list call) : Prop :=
  Forall (fun c => match c with
                   | CallReset => True
                   | CallStep action_c _ _ _ _ _ => action_c = 0%Z
                   end) calls.

(** The subjects left after the rates [rates], from [s] subjects: the
    running minimum of [floor(100 * rate)]. *)
Definition survivors (s : Z) (rates : list Q) : Z :=
  foldl (fun s r => Z.min s (Qfloor (r * 100))) s rates.

(** The times of the events over the rates [rates], the first of which has
    index [i], from [s] subjects. *)
Fixpoint death_times (i : nat) (s : Z) (rates : list Q) : list Z :=
  match rates with
  | [] => []
  | r :: rates =>
      let s' := Z.min s (Qfloor (r * 100)) in
      replicate (Z.to_nat (s - s')) (Z.of_nat i + 1)%Z ++ death_times (S i) s' rates
  end.

(** The entries from index [j] on, after the entry [prev] at index [j - 1]. *)
Fixpoint lowered (grace : Z) (j : nat) (prev : Q) (rest : list Q) : list Q :=
  match rest with
  | [] => []
  | x :: rest =>
      let x := if (Z.of_nat j <=? grace)%Z then 1 else x in
      let x := if Qlt_bool prev x then prev else x in
      x :: lowered grace (S j) x rest
  end.

(** Every entry is at most its predecessor. *)
Inductive descending : Q -> list Q -> Prop :=
  | descending_nil prev : descending prev []
  | descending_cons prev x l : x <= prev -> descending x l -> descending prev (x :: l).

(** ** Integer truncation *)

Lemma py_int_inject (x : Q) (k : Z) : x == inject_Z k -> py_int x = k.
Proof.
  unfold py_int, Qeq, inject_Z. simpl. intros H.
  rewrite Z.mul_1_r in H. rewrite H. apply Z.quot_mul. lia.
Qed.

Lemma py_int_truncates (x : Q) : truncates_toward_zero x (py_int x).
Proof.
  destruct x as [n d]. unfold truncates_toward_zero, py_int, Qle, Qlt, inject_Z.
  simpl. pose proof (Z.quot_rem' n (Z.pos d)) as E.
  pose proof (Z.rem_bound_abs n (Z.pos d) ltac:(lia)) as Ha.
  split; intros H; rewrite ?Z.mul_1_r in *.
  - assert (0 <= n)%Z as Hn by lia.
    pose proof (Z.rem_nonneg n (Z.pos d) ltac:(lia) Hn) as Hr.
    revert E Ha Hr. generalize (Z.quot n (Z.pos d)) (Z.rem n (Z.pos d)).
    intros q r E Ha Hr. lia.
  - assert (n <= 0)%Z as Hn by lia.
    pose proof (Z.rem_nonpos n (Z.pos d) ltac:(lia) Hn) as Hr.
    revert E Ha Hr. generalize (Z.quot n (Z.pos d)) (Z.rem n (Z.pos d)).
    intros q r E Ha Hr. lia.
Qed.

(** ** The integrator loop *)

Lemma trajectory_length upd c n : length (trajectory upd c n) = n.
Proof. revert c. induction n as [|n IH]; intros c; simpl; [done | by rewrite IH]. Qed.

Lemma trajectory_snoc upd c n :
  trajectory upd c (S n) = trajectory upd c n ++ [Nat.iter (S n) upd c].
Proof.
  revert c. induction n as [|n IH]; intros c; [done |].
  change (trajectory upd c (S (S n))) with (upd c :: trajectory upd (upd c) (S n)).
  rewrite IH. simpl. do 3 f_equal. by rewrite <- Nat.iter_succ_r.
Qed.

Lemma trajectory_lookup upd c n j :
  (j < n)%nat -> trajectory upd c n !! j = Some (Nat.iter (S j) upd c).
Proof.
  revert c j. induction n as [|n IH]; intros c j Hj; [lia |].
  destruct j as [|j]; [done |].
  simpl. rewrite IH by lia. simpl. by rewrite <- Nat.iter_succ_r.
Qed.

Lemma trajectory_obeys upd c0 n :
  (1 <= n)%nat -> obeys_recurrence upd c0 (trajectory upd c0 n).
Proof.
  intros Hn. split.
  - by rewrite trajectory_lookup by lia.
  - intros j x Hx Hj. rewrite trajectory_length in Hj.
    rewrite trajectory_lookup in Hx by lia. rewrite trajectory_lookup by lia.
    injection Hx as <-. done.
Qed.

(** The loop of the integrators, started after [j] of its iterations. *)
Lemma integrate_loop upd c0 m j :
  for_range (S := list Q) j m
    (fun k c => ck ← c !! k; setitem c (k + 1) (upd ck))
    (trajectory upd c0 (S j) ++ replicate m 0)
  = Some (trajectory upd c0 (S j + m)).
Proof.
  revert j. induction m as [|m IH]; intros j.
  - simpl for_range. by rewrite app_nil_r, Nat.add_0_r.
  - cbn [for_range].
    rewrite lookup_app_l by (rewrite trajectory_length; lia).
    rewrite trajectory_lookup by lia. cbn [mbind option_bind].
    unfold setitem. rewrite length_app, trajectory_length, length_replicate.
    destruct (decide (j + 1 < S j + S m)%nat) as [_|Hn]; [|lia].
    cbn [mbind option_bind].
    rewrite insert_app_r_alt by (rewrite trajectory_length; lia).
    rewrite trajectory_length. replace (j + 1 - S j)%nat with 0%nat by lia.
    cbn [replicate]. cbn [insert list_insert].
    replace (trajectory upd c0 (S j) ++ upd (Nat.iter (S j) upd c0) :: replicate m 0)
      with (trajectory upd c0 (S (S j)) ++ replicate m 0).
    + rewrite IH. f_equal. f_equal. lia.
    + rewrite (trajectory_snoc upd c0 (S j)). by rewrite <- app_assoc.
Qed.

(** Allocation, first write and loop: with at least one substep the result
    is the trajectory of the update. *)
Lemma integrate_returns upd c0 (n : Z) :
  (1 <= n)%Z ->
  (c ← torch_empty n;
   c ← setitem c 0 (upd c0);
   for_range 0 (Z.to_nat (n - 1))
     (fun k c => ck ← c !! k; setitem c (k + 1) (upd ck)) c)
  = Some (trajectory upd c0 (Z.to_nat n)).
Proof.
  intros Hn. unfold torch_empty.
  destruct (Z.ltb_spec n 0) as [|_]; [lia |]. cbn [mbind option_bind].
  replace (Z.to_nat n) with (S (Z.to_nat (n - 1))) by lia.
  cbn [replicate]. unfold setitem at 1. cbn [length].
  destruct (decide (0 < S (length (replicate (Z.to_nat (n - 1)) 0)))%nat) as [_|Hl]; [|lia].
  cbn [mbind option_bind insert list_insert].
  apply (integrate_loop upd c0 (Z.to_nat (n - 1)) 0).
Qed.

(** Without a substep the allocation or the first write fails. *)
Lemma integrate_raises upd c0 (n : Z) :
  (n < 1)%Z ->
  (c ← torch_empty n;
   c ← setitem c 0 (upd c0);
   for_range 0 (Z.to_nat (n - 1))
     (fun k c => ck ← c !! k; setitem c (k + 1) (upd ck)) c)
  = None.
Proof.
  intros Hn. unfold torch_empty.
  destruct (Z.ltb_spec n 0) as [|H0]; [done |].
  replace n with 0%Z by lia. done.
Qed.

Section IntegratorFacts.

Variable torch_exp : Q -> Q.

Lemma f_CSF1RI_returns self c0 dose interval q :
  py_div interval (dt_cyto self) = Some q -> (1 <= py_int q)%Z ->
  f_CSF1RI torch_exp self c0 dose interval
  = Some (trajectory
            (closed_form torch_exp (rate_a_CSF1RI torch_exp self)
               (rate_b_CSF1RI torch_exp self) dose (dt_cyto self))
            c0 (Z.to_nat (py_int q))).
Proof.
  intros Hq Hn. unfold f_CSF1RI. rewrite Hq. cbn [mbind option_bind].
  apply (integrate_returns
           (closed_form torch_exp (rate_a_CSF1RI torch_exp self)
              (rate_b_CSF1RI torch_exp self) dose (dt_cyto self)) c0 _ Hn).
Qed.

Lemma f_IGF1RI_returns self c0 dose C_T interval q :
  py_div interval (dt_cyto self) = Some q -> (1 <= py_int q)%Z ->
  f_IGF1RI torch_exp self c0 dose C_T interval
  = Some (trajectory
            (closed_form torch_exp (rate_a_IGF1RI torch_exp self)
               (rate_b_IGF1RI torch_exp self C_T) dose (dt_cyto self))
            c0 (Z.to_nat (py_int q))).
Proof.
  intros Hq Hn. unfold f_IGF1RI. rewrite Hq. cbn [mbind option_bind].
  apply (integrate_returns
           (closed_form torch_exp (rate_a_IGF1RI torch_exp self)
              (rate_b_IGF1RI torch_exp self C_T) dose (dt_cyto self)) c0 _ Hn).
Qed.

Lemma f_CSF1RI_raises self c0 dose interval :
  (forall q, py_div interval (dt_cyto self) = Some q -> (py_int q < 1)%Z) ->
  f_CSF1RI torch_exp self c0 dose interval = None.
Proof.
  intros H. unfold f_CSF1RI.
  destruct (py_div interval (dt_cyto self)) as [q|] eqn:Hq; [|done].
  cbn [mbind option_bind].
  apply (integrate_raises
           (closed_form torch_exp (rate_a_CSF1RI torch_exp self)
              (rate_b_CSF1RI torch_exp self) dose (dt_cyto self)) c0 _ (H q eq_refl)).
Qed.

Lemma f_IGF1RI_raises self c0 dose C_T interval :
  (forall q, py_div interval (dt_cyto self) = Some q -> (py_int q < 1)%Z) ->
  f_IGF1RI torch_exp self c0 dose C_T interval = None.
Proof.
  intros H. unfold f_IGF1RI.
  destruct (py_div interval (dt_cyto self)) as [q|] eqn:Hq; [|done].
  cbn [mbind option_bind].
  apply (integrate_raises
           (closed_form torch_exp (rate_a_IGF1RI torch_exp self)
              (rate_b_IGF1RI torch_exp self C_T) dose (dt_cyto self)) c0 _ (H q eq_refl)).
Qed.

End IntegratorFacts.

(** ** Claims on the integrators *)

Lemma py_div_nonzero (x y : Q) : ~ y == 0 -> py_div x y = Some (x / y).
Proof.
  intros Hy. unfold py_div.
  destruct (Qeq_bool y 0) eqn:E; [|done].
  apply Qeq_bool_iff in E. contradiction.
Qed.

Lemma py_div_zero (x y : Q) : y == 0 -> py_div x y = None.
Proof.
  intros Hy. unfold py_div. apply Qeq_bool_iff in Hy. by rewrite Hy.
Qed.

Lemma py_div_Some (x y q : Q) : py_div x y = Some q -> ~ y == 0 /\ q = x / y.
Proof.
  unfold py_div. destruct (Qeq_bool y 0) eqn:E; [done |].
  intros [= <-]. split; [|done]. intros Hy. apply Qeq_bool_iff in Hy. congruence.
Qed.

(** ** The integrators on the binary64 substep count *)

(** The integrators of the exact model run the same lines 100 to 106 (111 to
    117) on the truncated exact quotient. *)
Lemma f_CSF1RI_on_count (torch_exp : Q -> Q) self c0 dose interval :
  f_CSF1RI torch_exp self c0 dose interval
  = (q ← py_div interval (dt_cyto self);
     f_CSF1RI_steps torch_exp self c0 dose (py_int q)).
Proof. reflexivity. Qed.

Lemma f_IGF1RI_on_count (torch_exp : Q -> Q) self c0 dose C_T interval :
  f_IGF1RI torch_exp self c0 dose C_T interval
  = (q ← py_div interval (dt_cyto self);
     f_IGF1RI_steps torch_exp self c0 dose C_T (py_int q)).
Proof. reflexivity. Qed.

Lemma itera_cyto_binary64_Some interval dt itera_cyto :
  itera_cyto_binary64 interval dt = Some itera_cyto ->
  exists q, float_value (PrimFloat.div interval dt) = Some q /\ itera_cyto = py_int q.
Proof.
  unfold itera_cyto_binary64, float_int.
  destruct (PrimFloat.eqb dt 0); [done |].
  destruct (float_value (PrimFloat.div interval dt)) as [q|]; [|done].
  intros [= <-]. eauto.
Qed.

Section BinaryCount.

Variable torch_exp : Q -> Q.

Lemma f_CSF1RI_steps_returns self c0 dose (n : Z) :
  (1 <= n)%Z ->
  f_CSF1RI_steps torch_exp self c0 dose n
  = Some (trajectory
            (closed_form torch_exp (rate_a_CSF1RI torch_exp self)
               (rate_b_CSF1RI torch_exp self) dose (dt_cyto self))
            c0 (Z.to_nat n)).
Proof.
  intros Hn.
  apply (integrate_returns
           (closed_form torch_exp (rate_a_CSF1RI torch_exp self)
              (rate_b_CSF1RI torch_exp self) dose (dt_cyto self)) c0 _ Hn).
Qed.

Lemma f_IGF1RI_steps_returns self c0 dose C_T (n : Z) :
  (1 <= n)%Z ->
  f_IGF1RI_steps torch_exp self c0 dose C_T n
  = Some (trajectory
            (closed_form torch_exp (rate_a_IGF1RI torch_exp self)
               (rate_b_IGF1RI torch_exp self C_T) dose (dt_cyto self))
            c0 (Z.to_nat n)).
Proof.
  intros Hn.
  apply (integrate_returns
           (closed_form torch_exp (rate_a_IGF1RI torch_exp self)
              (rate_b_IGF1RI torch_exp self C_T) dose (dt_cyto self)) c0 _ Hn).
Qed.

Lemma f_CSF1RI_steps_raises self c0 dose (n : Z) :
  (n < 1)%Z -> f_CSF1RI_steps torch_exp self c0 dose n = None.
Proof.
  intros Hn.
  apply (integrate_raises
           (closed_form torch_exp (rate_a_CSF1RI torch_exp self)
              (rate_b_CSF1RI torch_exp self) dose (dt_cyto self)) c0 _ Hn).
Qed.

Lemma f_IGF1RI_steps_raises self c0 dose C_T (n : Z) :
  (n < 1)%Z -> f_IGF1RI_steps torch_exp self c0 dose C_T n = None.
Proof.
  intros Hn.
  apply (integrate_raises
           (closed_form torch_exp (rate_a_IGF1RI torch_exp self)
              (rate_b_IGF1RI torch_exp self C_T) dose (dt_cyto self)) c0 _ Hn).
Qed.

End BinaryCount.

(** The substep size of [binary64_model] is the value of the binary64 number
    [1/48], and its [CSF1RI_cum_max] the value of [200 / (1/48)]. *)
Lemma binary64_model_substep :
  float_value dt_cyto_main = Some (dt_cyto binary64_model) /\
  exists cum_max,
    float_value (200 / dt_cyto_main)%float = Some cum_max /\
    cum_max == CSF1RI_cum_max binary64_model.
Proof.
  split; [vm_compute; reflexivity |].
  eexists. split; [vm_compute; reflexivity | reflexivity].
Qed.

(** C1, as stated, fails in the arithmetic of the program, where the count is
    taken from the rounded quotient.  With the substep size [1/48] the
    interval [7 * (1/48)], seven substeps, has the binary64 quotient
    [6.999999999999999] (in hexadecimal [0x1.bffffffffffffp+2]): the count is
    [6] and the trajectory has six values.
    The interval [5 * (1/48)] does not divide evenly (its quotient by the
    substep size is below [5] and truncates to [4]), yet its binary64
    quotient is [5.0]: the count is [5]. *)
Lemma seven_substeps_run_as_six :
  ((7 * dt_cyto_main / dt_cyto_main)%float = 0x1.bffffffffffffp+2%float /\
   itera_cyto_binary64 (7 * dt_cyto_main) dt_cyto_main = Some 6%Z /\
   exists c,
     f_CSF1RI_binary64 exp_standin binary64_model 0 1
       (7 * dt_cyto_main) dt_cyto_main = Some c /\
     length c = 6%nat) /\
  (exists v d,
     float_value (5 * dt_cyto_main) = Some v /\ float_value dt_cyto_main = Some d /\
     v / d < 5 /\ py_int (v / d) = 4%Z /\
     itera_cyto_binary64 (5 * dt_cyto_main) dt_cyto_main = Some 5%Z).
Proof.
  split.
  - assert (itera_cyto_binary64 (7 * dt_cyto_main) dt_cyto_main = Some 6%Z) as Hk
      by (vm_compute; reflexivity).
    split; [vm_compute; reflexivity |]. split; [exact Hk |].
    unfold f_CSF1RI_binary64. rewrite Hk. cbn [mbind option_bind].
    rewrite f_CSF1RI_steps_returns by lia.
    eexists. split; [reflexivity |]. by rewrite trajectory_length.
  - destruct (float_value (5 * dt_cyto_main)) as [v|] eqn:Hv;
      [|vm_compute in Hv; discriminate].
    destruct (float_value dt_cyto_main) as [d|] eqn:Hd;
      [|vm_compute in Hd; discriminate].
    exists v, d. split; [reflexivity |]. split; [reflexivity |].
    vm_compute in Hv. vm_compute in Hd.
    injection Hv as <-. injection Hd as <-.
    split; [reflexivity |]. split; vm_compute; reflexivity.
Qed.

(** C1, amended.  The substep count is [int(interval/dt_cyto)] taken on the
    binary64 quotient.  For every interval whose count [k] is at least [1],
    [f_CSF1RI] and [f_IGF1RI] return a trajectory of exactly [k] values; its
    first value is the closed-form update of the initial concentration and
    each later value is the closed-form update of its predecessor.  The
    length of any returned trajectory is the binary64 quotient
    [interval/dt_cyto], as rounded, truncated toward zero. *)
Theorem integrators_run_truncated_count (torch_exp : Q -> Q) (self : RL_dNN)
    (c0 dose C_T : Q) (interval dt : float) :
  (forall k : Z,
      itera_cyto_binary64 interval dt = Some k -> (1 <= k)%Z ->
      exists c_CSF1RI c_IGF1RI,
        f_CSF1RI_binary64 torch_exp self c0 dose interval dt = Some c_CSF1RI /\
        f_IGF1RI_binary64 torch_exp self c0 dose C_T interval dt = Some c_IGF1RI /\
        length c_CSF1RI = Z.to_nat k /\
        length c_IGF1RI = Z.to_nat k /\
        obeys_recurrence
          (closed_form torch_exp (rate_a_CSF1RI torch_exp self)
             (rate_b_CSF1RI torch_exp self) dose (dt_cyto self))
          c0 c_CSF1RI /\
        obeys_recurrence
          (closed_form torch_exp (rate_a_IGF1RI torch_exp self)
             (rate_b_IGF1RI torch_exp self C_T) dose (dt_cyto self))
          c0 c_IGF1RI) /\
  (forall c,
      f_CSF1RI_binary64 torch_exp self c0 dose interval dt = Some c \/
      f_IGF1RI_binary64 torch_exp self c0 dose C_T interval dt = Some c ->
      exists q,
        float_value (PrimFloat.div interval dt) = Some q /\
        truncates_toward_zero q (Z.of_nat (length c))).
Proof.
  split.
  - intros k Hk H1. unfold f_CSF1RI_binary64, f_IGF1RI_binary64.
    rewrite Hk. cbn [mbind option_bind].
    rewrite f_CSF1RI_steps_returns, f_IGF1RI_steps_returns by done.
    eexists _, _. split; [reflexivity |]. split; [reflexivity |].
    rewrite !trajectory_length.
    repeat split; try apply trajectory_obeys; lia.
  - intros c Hc. unfold f_CSF1RI_binary64, f_IGF1RI_binary64 in Hc.
    destruct (itera_cyto_binary64 interval dt) as [k|] eqn:Hk;
      [|by destruct Hc].
    cbn [mbind option_bind] in Hc.
    destruct (itera_cyto_binary64_Some _ _ _ Hk) as (q & Hq & ->).
    exists q. split; [done |].
    destruct (Z_lt_le_dec (py_int q) 1) as [Hlt|Hge].
    + rewrite f_CSF1RI_steps_raises, f_IGF1RI_steps_raises in Hc by done.
      by destruct Hc.
    + rewrite f_CSF1RI_steps_returns, f_IGF1RI_steps_returns in Hc by done.
      assert (Z.of_nat (length c) = py_int q) as ->.
      { destruct Hc as [[= <-]|[= <-]]; rewrite trajectory_length; lia. }
      apply py_int_truncates.
Qed.

(** C1, amended, at the substep size [1/48] and the interval [2 * (1/48)]. *)
Lemma integrators_run_truncated_count_witness :
  itera_cyto_binary64 (2 * dt_cyto_main) dt_cyto_main = Some 2%Z /\
  exists c_CSF1RI c_IGF1RI,
    f_CSF1RI_binary64 exp_standin binary64_model 0 1
      (2 * dt_cyto_main) dt_cyto_main = Some c_CSF1RI /\
    f_IGF1RI_binary64 exp_standin binary64_model 0 1 (58 # 100)
      (2 * dt_cyto_main) dt_cyto_main = Some c_IGF1RI /\
    length c_CSF1RI = 2%nat /\ length c_IGF1RI = 2%nat.
Proof.
  assert (itera_cyto_binary64 (2 * dt_cyto_main) dt_cyto_main = Some 2%Z) as Hk
    by (vm_compute; reflexivity).
  split; [exact Hk |].
  destruct (integrators_run_truncated_count exp_standin binary64_model 0 1 (58 # 100)
              (2 * dt_cyto_main) dt_cyto_main) as [Hcount _].
  destruct (Hcount 2%Z Hk ltac:(lia)) as (c1 & c2 & H1 & H2 & L1 & L2 & _).
  exists c1, c2. auto.
Defined.

(** ** The integrators as the recurrence *)

Section RecurrenceFacts.

Variable torch_exp : Q -> Q.

Lemma f_CSF1RI_recurrence self c0 dose interval :
  f_CSF1RI torch_exp self c0 dose interval
  = recurrence torch_exp (rate_a_CSF1RI torch_exp self)
      (rate_b_CSF1RI torch_exp self) dose (dt_cyto self) c0 interval.
Proof.
  unfold recurrence.
  destruct (py_div interval (dt_cyto self)) as [q|] eqn:Hq.
  - cbn [mbind option_bind]. destruct (Z.leb_spec 1 (py_int q)) as [Hge|Hlt].
    + by apply f_CSF1RI_returns.
    + apply f_CSF1RI_raises. intros q' Hq'. rewrite Hq in Hq'. by injection Hq' as <-.
  - apply f_CSF1RI_raises. intros q' Hq'. congruence.
Qed.

Lemma f_IGF1RI_recurrence self c0 dose C_T interval :
  f_IGF1RI torch_exp self c0 dose C_T interval
  = recurrence torch_exp (rate_a_IGF1RI torch_exp self)
      (rate_b_IGF1RI torch_exp self C_T) dose (dt_cyto self) c0 interval.
Proof.
  unfold recurrence.
  destruct (py_div interval (dt_cyto self)) as [q|] eqn:Hq.
  - cbn [mbind option_bind]. destruct (Z.leb_spec 1 (py_int q)) as [Hge|Hlt].
    + by apply f_IGF1RI_returns.
    + apply f_IGF1RI_raises. intros q' Hq'. rewrite Hq in Hq'. by injection Hq' as <-.
  - apply f_IGF1RI_raises. intros q' Hq'. congruence.
Qed.

Lemma recurrence_is_Some a b a' b' dose dose' dt c0 c0' interval :
  is_Some (recurrence torch_exp a b dose dt c0 interval) ->
  is_Some (recurrence torch_exp a' b' dose' dt c0' interval).
Proof.
  unfold recurrence. destruct (py_div interval dt) as [q|]; cbn [mbind option_bind].
  - destruct (1 <=? py_int q)%Z; [eauto | by intros [? ?]].
  - by intros [? ?].
Qed.

Lemma recurrence_last a b dose dt c0 interval c :
  recurrence torch_exp a b dose dt c0 interval = Some c -> is_Some (py_last c).
Proof.
  unfold recurrence. destruct (py_div interval dt) as [q|]; cbn [mbind option_bind]; [|done].
  destruct (Z.leb_spec 1 (py_int q)) as [Hge|]; [|done].
  intros [= <-]. unfold py_last.
  destruct (Z.to_nat (py_int q)) as [|n] eqn:E; [lia |].
  rewrite trajectory_snoc, last_snoc. eauto.
Qed.

End RecurrenceFacts.

(** ** The surrogate prediction *)

Lemma length_clamp_negative u : length (clamp_negative u) = length u.
Proof. unfold clamp_negative. apply length_map. Qed.

Lemma clamp_negative_nonneg u :
  Forall (Forall (fun x => 0 <= x)) (clamp_negative u).
Proof.
  unfold clamp_negative. apply Forall_forall. intros row Hrow.
  apply list_elem_of_In, in_map_iff in Hrow. destruct Hrow as (r & <- & _).
  apply Forall_forall. intros x Hx.
  apply list_elem_of_In, in_map_iff in Hx. destruct Hx as (y & <- & _).
  unfold Qlt_bool. destruct (Qle_bool 0 y) eqn:E; cbn [negb].
  - by apply Qle_bool_iff.
  - apply Qle_refl.
Qed.

Lemma length_ones_like c : length (ones_like c) = length c.
Proof. unfold ones_like. apply length_map. Qed.

Lemma length_broadcast x c : length (broadcast x c) = length c.
Proof. unfold broadcast. by rewrite length_map, length_ones_like. Qed.

Lemma py_last_broadcast x c : c <> [] -> py_last (broadcast x c) = Some (x * 1).
Proof.
  intros Hc. destruct (exists_last Hc) as (c' & y & ->).
  unfold py_last, broadcast, ones_like. rewrite !map_app. cbn [map].
  apply last_snoc.
Qed.

Lemma py_last_trajectory upd c n :
  py_last (trajectory upd c (S n)) = Some (Nat.iter (S n) upd c).
Proof. unfold py_last. rewrite trajectory_snoc. apply last_snoc. Qed.

Lemma py_last_broadcast_nil x : py_last (broadcast x []) = None.
Proof. done. Qed.

Lemma length_cat_columns t C dose_c dose_cum dose_I n :
  length t = n -> length C = n -> length dose_c = n ->
  length dose_cum = n -> length dose_I = n ->
  length (cat_columns t C dose_c dose_cum dose_I) = n.
Proof.
  intros. unfold cat_columns. rewrite !length_zip_with. lia.
Qed.

Section PredictFacts.

Variable torch_exp : Q -> Q.
Variable torch_tanh : Q -> Q.

Lemma length_DNN_forward net x :
  length (DNN_forward torch_tanh net x) = length x.
Proof.
  unfold DNN_forward. rewrite length_map.
  generalize (hidden net). intros layers. revert x.
  induction layers as [|L layers IH]; intros x; [done |].
  cbn [foldl]. rewrite IH. apply length_map.
Qed.

Lemma length_net_u_CC self C t dose_c dose_cum dose_I :
  length t = length C -> length dose_c = length C ->
  length dose_cum = length C -> length dose_I = length C ->
  length (net_u_CC torch_tanh self C t dose_c dose_cum dose_I) = length C.
Proof.
  intros. unfold net_u_CC. rewrite length_DNN_forward.
  apply length_cat_columns; by rewrite length_map.
Qed.

(** What a returning call of [predict_DRL_FP] returns. *)
Lemma predict_DRL_FP_inv self c t dose_c cum dose_I c0 cI0 cT0 interval m u cum' cC cI :
  predict_DRL_FP torch_exp torch_tanh self c t dose_c cum dose_I c0 cI0 cT0 interval
  = Some (m, (u, cum', cC, cI)) ->
  m = eval_mode self /\
  exists c_CSF1RI c_IGF1RI last_c last_I,
    f_CSF1RI torch_exp (eval_mode self) c0 dose_c interval = Some c_CSF1RI /\
    f_IGF1RI torch_exp (eval_mode self) cI0 dose_I cT0 interval = Some c_IGF1RI /\
    py_last c_CSF1RI = Some last_c /\
    py_last c_IGF1RI = Some last_I /\
    c <> [] /\
    cum' = cum + vsum c_CSF1RI /\
    cC = last_c * 1 /\ cI = last_I * 1 /\
    u = clamp_negative
          (net_u_CC torch_tanh (eval_mode self) c (broadcast t c)
             (broadcast last_c c) (broadcast cum' c) (broadcast last_I c)).
Proof.
  unfold predict_DRL_FP. intros H.
  destruct (f_CSF1RI torch_exp (eval_mode self) c0 dose_c interval) as [cs|]; [|done].
  destruct (f_IGF1RI torch_exp (eval_mode self) cI0 dose_I cT0 interval) as [ci|]; [|done].
  cbn [mbind option_bind] in H.
  destruct (py_last cs) as [lc|] eqn:Hlc; [|done]. cbn [mbind option_bind] in H.
  destruct (py_last ci) as [li|] eqn:Hli; [|done]. cbn [mbind option_bind] in H.
  destruct c as [|c1 c].
  { by rewrite py_last_broadcast_nil in H. }
  rewrite !py_last_broadcast in H by done. cbn [mbind option_bind] in H.
  injection H as <- <- <- <- <-. split; [done |].
  exists cs, ci, lc, li. repeat split; done.
Qed.

(** [predict_DRL_FP] returns exactly when the substep size is not zero, the
    interval holds at least one substep and there is at least one bin. *)
Lemma predict_DRL_FP_returns self c t dose_c cum dose_I c0 cI0 cT0 interval :
  ~ dt_cyto self == 0 -> (1 <= py_int (interval / dt_cyto self))%Z -> c <> [] ->
  exists u cum' cC cI,
    predict_DRL_FP torch_exp torch_tanh self c t dose_c cum dose_I c0 cI0 cT0 interval
    = Some (eval_mode self, (u, cum', cC, cI)).
Proof.
  intros Hdt Hn Hc. unfold predict_DRL_FP.
  pose proof (py_div_nonzero interval _ Hdt) as Hq.
  rewrite (f_CSF1RI_returns torch_exp (eval_mode self) c0 dose_c interval _ Hq Hn).
  rewrite (f_IGF1RI_returns torch_exp (eval_mode self) cI0 dose_I cT0 interval _ Hq Hn).
  cbn [mbind option_bind].
  change (dt_cyto (eval_mode self)) with (dt_cyto self).
  destruct (Z.to_nat (py_int (interval / dt_cyto self))) as [|n] eqn:E; [lia |].
  rewrite !py_last_trajectory. cbn [mbind option_bind].
  rewrite !py_last_broadcast by done. cbn [mbind option_bind].
  eauto.
Qed.

Lemma predict_DRL_FP_is_Some self c t dose_c cum dose_I c0 cI0 cT0 interval :
  is_Some (predict_DRL_FP torch_exp torch_tanh self c t dose_c cum dose_I c0 cI0 cT0 interval)
  <-> ~ dt_cyto self == 0 /\ (1 <= py_int (interval / dt_cyto self))%Z /\ c <> [].
Proof.
  split.
  - intros [[m [[[u cum'] cC] cI]] H].
    apply predict_DRL_FP_inv in H.
    destruct H as (_ & cs & ci & lc & li & Hcs & _ & _ & _ & Hc & _).
    rewrite f_CSF1RI_recurrence in Hcs. unfold recurrence in Hcs.
    change (dt_cyto (eval_mode self)) with (dt_cyto self) in Hcs.
    destruct (py_div interval (dt_cyto self)) as [q|] eqn:Hq; [|done].
    apply py_div_Some in Hq. destruct Hq as [Hdt ->].
    cbn [mbind option_bind] in Hcs.
    destruct (Z.leb_spec 1 (py_int (interval / dt_cyto self))); [done | done].
  - intros (Hdt & Hn & Hc).
    destruct (predict_DRL_FP_returns self c t dose_c cum dose_I c0 cI0 cT0 interval Hdt Hn Hc)
      as (u & cum' & cC & cI & ->). eauto.
Qed.

End PredictFacts.

(** ** Substep counts below one *)

Lemma py_int_bounds (q : Q) :
  exists z : Q, z = inject_Z (py_int q) /\
    (0 <= q -> z <= q /\ q < z + 1) /\ (q <= 0 -> z - 1 < q /\ q <= z).
Proof. exists (inject_Z (py_int q)). split; [done | apply py_int_truncates]. Qed.

Lemma py_int_below_one (q : Q) : q < 1 -> (py_int q <= 0)%Z.
Proof.
  intros Hq. apply Z.lt_succ_r. change (Z.succ 0) with 1%Z. rewrite Zlt_Qlt.
  change (inject_Z 1) with 1.
  destruct (py_int_bounds q) as (z & Hz & Hpos & Hneg). rewrite <- Hz. clear Hz.
  destruct (Qlt_le_dec q 0) as [H0|H0].
  - destruct (Hneg (Qlt_le_weak _ _ H0)). lra.
  - destruct (Hpos H0). lra.
Qed.

Lemma py_int_within_one (q : Q) : - (1) < q -> q < 1 -> py_int q = 0%Z.
Proof.
  intros Hlo Hhi. pose proof (py_int_below_one q Hhi) as Hle.
  assert (-1 < py_int q)%Z; [|lia].
  rewrite Zlt_Qlt. change (inject_Z (-1)) with (- (1)).
  destruct (py_int_bounds q) as (z & Hz & Hpos & Hneg). rewrite <- Hz. clear Hz.
  destruct (Qlt_le_dec q 0) as [H0|H0].
  - destruct (Hneg (Qlt_le_weak _ _ H0)). lra.
  - destruct (Hpos H0). lra.
Qed.

Lemma py_int_at_most_minus_one (q : Q) : q <= - (1) -> (py_int q < 0)%Z.
Proof.
  intros Hq. rewrite Zlt_Qlt. change (inject_Z 0) with 0.
  destruct (py_int_bounds q) as (z & Hz & _ & Hneg). rewrite <- Hz. clear Hz.
  destruct Hneg; lra.
Qed.

Lemma Qdiv_lt_one (x y : Q) : 0 < y -> x < y -> x / y < 1.
Proof. intros Hy Hx. apply Qlt_shift_div_r; [done | lra]. Qed.

Lemma Qdiv_gt_minus_one (x y : Q) : 0 < y -> - y < x -> - (1) < x / y.
Proof. intros Hy Hx. apply Qlt_shift_div_l; [done | lra]. Qed.

Lemma Qdiv_le_minus_one (x y : Q) : 0 < y -> x <= - y -> x / y <= - (1).
Proof. intros Hy Hx. apply Qle_shift_div_r; [done | lra]. Qed.

(** ** Claims on the surrogate model *)

(** C3, as stated, fails: [predict_DRL_FP] does not return a density for
    every input.  With an interval below one substep the integrators raise,
    and with an empty column of bins the read [c_CSF1RI_k[-1, 0]] is out of
    bounds. *)
Lemma predict_DRL_FP_raises_on_some_inputs :
  predict_DRL_FP exp_standin tanh_standin small_model [18; 2; 2; 2]
    (1 # 48) 1 0 0 0 0 (58 # 100) (1 # 100) = None /\
  predict_DRL_FP exp_standin tanh_standin small_model []
    (1 # 48) 1 0 0 0 0 (58 # 100) (1 # 48) = None.
Proof. split; vm_compute; reflexivity. Qed.

(** C3, amended.  For every input with a non-zero substep size, an interval
    of at least one substep and at least one concentration bin,
    [predict_DRL_FP] returns a density vector with as many rows as bins, all
    of whose entries are [>= 0] whatever the weights of the network are, and
    the model object after the call has the loaded parameters unchanged. *)
Theorem predict_DRL_FP_density (torch_exp torch_tanh : Q -> Q) (self : RL_dNN)
    (c : list Q) (t dose_c CSF1RI_cum dose_I c_CSF1RI_0 c_IGF1RI_0 c_T_0 interval : Q) :
  ~ dt_cyto self == 0 ->
  (1 <= py_int (interval / dt_cyto self))%Z ->
  c <> [] ->
  exists self' uTC_pred CSF1RI_cum' c_CSF1RI_k c_IGF1RI_k,
    predict_DRL_FP torch_exp torch_tanh self c t dose_c CSF1RI_cum dose_I
      c_CSF1RI_0 c_IGF1RI_0 c_T_0 interval
    = Some (self', (uTC_pred, CSF1RI_cum', c_CSF1RI_k, c_IGF1RI_k)) /\
    length uTC_pred = length c /\
    Forall (Forall (fun x => 0 <= x)) uTC_pred /\
    ModelParameters self' = ModelParameters self.
Proof.
  intros Hdt Hn Hc.
  destruct (predict_DRL_FP_returns torch_exp torch_tanh self c t dose_c CSF1RI_cum
              dose_I c_CSF1RI_0 c_IGF1RI_0 c_T_0 interval Hdt Hn Hc)
    as (u & cum' & cC & cI & Hp).
  exists (eval_mode self), u, cum', cC, cI. split; [exact Hp |].
  apply predict_DRL_FP_inv in Hp.
  destruct Hp as (_ & cs & ci & lc & li & _ & _ & _ & _ & _ & _ & _ & _ & ->).
  split; [|split].
  - rewrite length_clamp_negative.
    apply length_net_u_CC; apply length_broadcast.
  - apply clamp_negative_nonneg.
  - reflexivity.
Qed.

(** C3 on four bins and an interval of one substep. *)
Lemma predict_DRL_FP_density_witness :
  exists self' uTC_pred CSF1RI_cum' c_CSF1RI_k c_IGF1RI_k,
    predict_DRL_FP exp_standin tanh_standin small_model [18; 2; 2; 2]
      (1 # 48) 1 0 0 0 0 (58 # 100) (1 # 48)
    = Some (self', (uTC_pred, CSF1RI_cum', c_CSF1RI_k, c_IGF1RI_k)) /\
    length uTC_pred = 4%nat /\
    Forall (Forall (fun x => 0 <= x)) uTC_pred /\
    ModelParameters self' = ModelParameters small_model.
Proof.
  apply (predict_DRL_FP_density exp_standin tanh_standin small_model [18; 2; 2; 2]).
  - vm_compute. discriminate.
  - vm_compute. discriminate.
  - discriminate.
Defined.

(** C7.  Both integrators are the recurrence with rates obtained by
    exponentiating the trained log-parameters:
    [a = exp(log_p[10])*q_c], [b = exp(log_p[11])*eta_c + exp(log_p[12])*mu_c]
    for the CSF1R inhibitor and [a = exp(log_p[13])*q_i],
    [b = exp(log_p[14])*eta_i + exp(log_p[15])*mu_i*C_T] for the IGF1R
    inhibitor.  Only the latter [b] changes with the tumor-cell expectation
    [C_T], linearly with slope [exp(log_p[15])*mu_i]; the CSF1R-inhibitor
    outputs of [predict_DRL_FP] are the same for every [C_T]. *)
Theorem rates_from_log_parameters (torch_exp torch_tanh : Q -> Q) (self : RL_dNN) :
  (forall c0 dose interval,
      f_CSF1RI torch_exp self c0 dose interval
      = recurrence torch_exp
          (torch_exp (log_p_cyto self 10) * q_c self)
          (torch_exp (log_p_cyto self 11) * eta_c self
           + torch_exp (log_p_cyto self 12) * mu_c self)
          dose (dt_cyto self) c0 interval) /\
  (forall c0 dose C_T interval,
      f_IGF1RI torch_exp self c0 dose C_T interval
      = recurrence torch_exp
          (torch_exp (log_p_cyto self 13) * q_i self)
          (torch_exp (log_p_cyto self 14) * eta_i self
           + torch_exp (log_p_cyto self 15) * mu_i self * C_T)
          dose (dt_cyto self) c0 interval) /\
  (forall C_T C_T',
      rate_b_IGF1RI torch_exp self C_T' - rate_b_IGF1RI torch_exp self C_T
      == torch_exp (log_p_cyto self 15) * mu_i self * (C_T' - C_T)) /\
  (forall c t dose_c CSF1RI_cum dose_I c_CSF1RI_0 c_IGF1RI_0 c_T_0 c_T_0' interval,
      CSF1RI_outputs <$>
        predict_DRL_FP torch_exp torch_tanh self c t dose_c CSF1RI_cum dose_I
          c_CSF1RI_0 c_IGF1RI_0 c_T_0 interval
      = CSF1RI_outputs <$>
        predict_DRL_FP torch_exp torch_tanh self c t dose_c CSF1RI_cum dose_I
          c_CSF1RI_0 c_IGF1RI_0 c_T_0' interval).
Proof.
  split; [|split; [|split]].
  - intros. apply f_CSF1RI_recurrence.
  - intros. apply f_IGF1RI_recurrence.
  - intros. unfold rate_b_IGF1RI. ring.
  - intros c t dose_c cum dose_I c0 cI0 cT0 cT0' interval.
    pose proof (predict_DRL_FP_is_Some torch_exp torch_tanh self c t dose_c cum
                  dose_I c0 cI0 cT0 interval) as H1.
    pose proof (predict_DRL_FP_is_Some torch_exp torch_tanh self c t dose_c cum
                  dose_I c0 cI0 cT0' interval) as H2.
    destruct (predict_DRL_FP torch_exp torch_tanh self c t dose_c cum dose_I
                c0 cI0 cT0 interval) as [[m [[[u cum1] cC] cI]]|] eqn:E1;
      destruct (predict_DRL_FP torch_exp torch_tanh self c t dose_c cum dose_I
                  c0 cI0 cT0' interval) as [[m' [[[u' cum2] cC'] cI']]|] eqn:E2.
    + apply predict_DRL_FP_inv in E1, E2.
      destruct E1 as (_ & cs & ci & lc & li & Hcs & _ & Hlc & _ & _ & -> & -> & _).
      destruct E2 as (_ & cs' & ci' & lc' & li' & Hcs' & _ & Hlc' & _ & _ & -> & -> & _).
      rewrite Hcs in Hcs'. injection Hcs' as <-.
      rewrite Hlc in Hlc'. injection Hlc' as <-. reflexivity.
    + exfalso. assert (is_Some (@None (RL_dNN * (list (list Q) * Q * Q * Q)))) as [? ?];
        [|done]. apply H2, H1. eauto.
    + exfalso. assert (is_Some (@None (RL_dNN * (list (list Q) * Q * Q * Q)))) as [? ?];
        [|done]. apply H1, H2. eauto.
    + reflexivity.
Qed.

(** C10, as stated, fails for negative intervals: with the substep size
    [1/48] and the interval [-1] (strictly smaller than the substep size) the
    substep count is [-48], not [0], and no tensor of length [0] is
    allocated: [torch.empty] itself refuses the negative size. *)
Lemma substep_count_not_zero_for_negative_interval :
  (-1 # 1) < dt_cyto small_model /\
  py_div (-1 # 1) (dt_cyto small_model) = Some ((-1 # 1) / dt_cyto small_model) /\
  py_int ((-1 # 1) / dt_cyto small_model) = (-48)%Z /\
  torch_empty (py_int ((-1 # 1) / dt_cyto small_model)) = None.
Proof. repeat split. Qed.

(** C10, amended.  With a positive substep size the integrators return
    exactly when [int(interval/dt_cyto) >= 1].  For every interval strictly
    smaller than the substep size the substep count is at most [0] and both
    integrators raise: when the interval is above [- dt_cyto] the count
    truncates to [0], the trajectory tensor has length [0] and the write to
    its first element is out of bounds; when the interval is at most
    [- dt_cyto] the count is negative and the allocation fails. *)
Theorem integrators_need_one_substep (torch_exp : Q -> Q) (self : RL_dNN)
    (c0 dose C_T interval : Q) :
  0 < dt_cyto self ->
  (is_Some (f_CSF1RI torch_exp self c0 dose interval)
   <-> (1 <= py_int (interval / dt_cyto self))%Z) /\
  (is_Some (f_IGF1RI torch_exp self c0 dose C_T interval)
   <-> (1 <= py_int (interval / dt_cyto self))%Z) /\
  (interval < dt_cyto self ->
   (py_int (interval / dt_cyto self) <= 0)%Z /\
   f_CSF1RI torch_exp self c0 dose interval = None /\
   f_IGF1RI torch_exp self c0 dose C_T interval = None) /\
  (- dt_cyto self < interval -> interval < dt_cyto self ->
   py_int (interval / dt_cyto self) = 0%Z /\
   torch_empty (py_int (interval / dt_cyto self)) = Some [] /\
   forall v, setitem [] 0 v = None) /\
  (interval <= - dt_cyto self ->
   (py_int (interval / dt_cyto self) < 0)%Z /\
   torch_empty (py_int (interval / dt_cyto self)) = None).
Proof.
  intros Hdt.
  assert (~ dt_cyto self == 0) as Hnz by lra.
  pose proof (py_div_nonzero interval _ Hnz) as Hq.
  assert (forall n : Z,
             is_Some (if (1 <=? n)%Z
                      then Some (trajectory
                                   (closed_form torch_exp (rate_a_CSF1RI torch_exp self)
                                      (rate_b_CSF1RI torch_exp self) dose (dt_cyto self))
                                   c0 (Z.to_nat n))
                      else None) <-> (1 <= n)%Z) as HC.
  { intros n. destruct (Z.leb_spec 1 n); split; eauto; try lia. by intros [? ?]. }
  assert (forall n : Z,
             is_Some (if (1 <=? n)%Z
                      then Some (trajectory
                                   (closed_form torch_exp (rate_a_IGF1RI torch_exp self)
                                      (rate_b_IGF1RI torch_exp self C_T) dose (dt_cyto self))
                                   c0 (Z.to_nat n))
                      else None) <-> (1 <= n)%Z) as HI.
  { intros n. destruct (Z.leb_spec 1 n); split; eauto; try lia. by intros [? ?]. }
  split; [|split; [|split; [|split]]].
  - rewrite f_CSF1RI_recurrence. unfold recurrence. rewrite Hq. apply HC.
  - rewrite f_IGF1RI_recurrence. unfold recurrence. rewrite Hq. apply HI.
  - intros Hlt. pose proof (py_int_below_one _ (Qdiv_lt_one _ _ Hdt Hlt)) as Hle.
    split; [exact Hle |]. split.
    + apply f_CSF1RI_raises. intros q Hq'. rewrite Hq in Hq'. injection Hq' as <-. lia.
    + apply f_IGF1RI_raises. intros q Hq'. rewrite Hq in Hq'. injection Hq' as <-. lia.
  - intros Hlo Hhi.
    rewrite (py_int_within_one _ (Qdiv_gt_minus_one _ _ Hdt Hlo) (Qdiv_lt_one _ _ Hdt Hhi)).
    repeat split.
  - intros Hle.
    pose proof (py_int_at_most_minus_one _ (Qdiv_le_minus_one _ _ Hdt Hle)) as Hneg.
    split; [exact Hneg |]. unfold torch_empty.
    by destruct (Z.ltb_spec (py_int (interval / dt_cyto self)) 0); [|lia].
Qed.

(** C10 at the interval [1/100], below the substep size [1/48]. *)
Lemma integrators_need_one_substep_witness :
  0 < dt_cyto small_model /\
  f_CSF1RI exp_standin small_model 0 1 (1 # 100) = None /\
  f_IGF1RI exp_standin small_model 0 1 (58 # 100) (1 # 100) = None.
Proof.
  assert (0 < dt_cyto small_model) as Hdt by reflexivity.
  split; [exact Hdt |].
  destruct (integrators_need_one_substep exp_standin small_model 0 1 (58 # 100)
              (1 # 100) Hdt) as (_ & _ & Hraise & _).
  destruct (Hraise ltac:(reflexivity)) as (_ & H1 & H2). by split.
Defined.

(** ** The environment *)

(** The reads at the head of [step]: the two doses and the last entries of
    the three histories.  A failing read leaves nothing to prove. *)
Ltac step_lookups self action_c action_I :=
  destruct (py_index (action_c_space self) action_c) as [dose_c|]; [|done];
  destruct (py_index (action_I_space self) action_I) as [dose_I|]; [|done];
  destruct (py_last (predict_CSF1RI_list self)) as [c0|]; [|done];
  destruct (py_last (predict_IGF1RI_list self)) as [cI0|]; [|done];
  destruct (py_last (predict_TC_list self)) as [cT0|]; [|done];
  cbn [mbind option_bind] in *.

Section StepFacts.

Variable torch_exp : Q -> Q.
Variable torch_tanh : Q -> Q.

(** A call of [step] that produces a density returns, and what it returns
    and leaves in the environment is determined by that density. *)
Lemma step_of_density self action_c action_I epi predict_dt cc lamda rl :
  step_density torch_exp torch_tanh self action_c action_I predict_dt cc = Some rl ->
  exists self' dose_c,
    py_index (action_c_space self) action_c = Some dose_c /\
    step torch_exp torch_tanh self action_c action_I epi predict_dt cc lamda
    = Some (self',
            (state self,
             fst (reward_function (death_prob_of rl) (cure_prob_of rl)
                    (survival_prob_of rl) (dose_punish_of self) action_c action_I
                    lamda (time self + predict_dt)
                    (CSF1RI_dose_cum self + dose_c * predict_dt)),
             snd (reward_function (death_prob_of rl) (cure_prob_of rl)
                    (survival_prob_of rl) (dose_punish_of self) action_c action_I
                    lamda (time self + predict_dt)
                    (CSF1RI_dose_cum self + dose_c * predict_dt)),
             state self ++ [(state_survival_of rl,
                             if (epi =? 0)%Z then 0
                             else state_survival_of rl - last_state_survival self)])) /\
    state self'
    = state self ++ [(state_survival_of rl,
                      if (epi =? 0)%Z then 0
                      else state_survival_of rl - last_state_survival self)] /\
    last_state_survival self' = state_survival_of rl /\
    time self' = time self + predict_dt /\
    CSF1RI_dose_cum self' = CSF1RI_dose_cum self + dose_c * predict_dt /\
    history_lengths self'
    = (S (length (predict_CSF1RI_list self)), S (length (predict_IGF1RI_list self)),
       S (length (predict_TC_list self))) /\
    last (predict_TC_list self') = Some (weighted_sum (normalization rl) cc) /\
    dt_cyto (surrogat_model self') = dt_cyto (surrogat_model self).
Proof.
  unfold step_density, step. intros H.
  step_lookups self action_c action_I.
  destruct (predict_DRL_FP torch_exp torch_tanh (surrogat_model self) cc
              (time self + predict_dt) dose_c (predict_CSF1RI_cum self) dose_I
              c0 cI0 cT0 predict_dt) as [[m [[[u cum] cC] cI]]|] eqn:Hp; [|done].
  cbn [mbind option_bind fst snd] in *. injection H as ->.
  apply predict_DRL_FP_inv in Hp. destruct Hp as [-> _].
  change (1 - survival_prob_of rl) with (death_prob_of rl).
  eexists _, dose_c. split; [done |].
  destruct (reward_function (death_prob_of rl) (cure_prob_of rl) (survival_prob_of rl)
              (dose_punish_of self) action_c action_I lamda (time self + predict_dt)
              (CSF1RI_dose_cum self + dose_c * predict_dt)) as [reward done].
  split; [reflexivity |].
  cbn [state last_state_survival time CSF1RI_dose_cum surrogat_model fst snd].
  unfold history_lengths.
  cbn [predict_CSF1RI_list predict_IGF1RI_list predict_TC_list].
  rewrite !length_app, !Nat.add_1_r, last_snoc. repeat split.
Qed.

Lemma step_density_of_step self action_c action_I epi predict_dt cc lamda r :
  step torch_exp torch_tanh self action_c action_I epi predict_dt cc lamda = Some r ->
  exists rl,
    step_density torch_exp torch_tanh self action_c action_I predict_dt cc = Some rl.
Proof.
  unfold step_density, step. intros H.
  step_lookups self action_c action_I.
  destruct (predict_DRL_FP torch_exp torch_tanh (surrogat_model self) cc
              (time self + predict_dt) dose_c (predict_CSF1RI_cum self) dose_I
              c0 cI0 cT0 predict_dt) as [p|]; [|done].
  cbn [mbind option_bind]. eauto.
Qed.

(** A step that produces a density has an interval of at least one
    substep. *)
Lemma step_density_substep self action_c action_I predict_dt cc rl :
  step_density torch_exp torch_tanh self action_c action_I predict_dt cc = Some rl ->
  ~ dt_cyto (surrogat_model self) == 0 /\
  (1 <= py_int (predict_dt / dt_cyto (surrogat_model self)))%Z /\ cc <> [].
Proof.
  unfold step_density. intros H.
  step_lookups self action_c action_I.
  destruct (predict_DRL_FP torch_exp torch_tanh (surrogat_model self) cc
              (time self + predict_dt) dose_c (predict_CSF1RI_cum self) dose_I
              c0 cI0 cT0 predict_dt) as [p|] eqn:Hp; [|done].
  eapply predict_DRL_FP_is_Some. rewrite Hp. eauto.
Qed.

(** Sufficient conditions for a step to produce a density. *)
Lemma step_density_returns self action_c action_I predict_dt cc :
  is_Some (py_index (action_c_space self) action_c) ->
  is_Some (py_index (action_I_space self) action_I) ->
  predict_CSF1RI_list self <> [] -> predict_IGF1RI_list self <> [] ->
  predict_TC_list self <> [] ->
  ~ dt_cyto (surrogat_model self) == 0 ->
  (1 <= py_int (predict_dt / dt_cyto (surrogat_model self)))%Z ->
  cc <> [] ->
  is_Some (step_density torch_exp torch_tanh self action_c action_I predict_dt cc).
Proof.
  intros [dose_c Hc] [dose_I HI] H1 H2 H3 Hdt Hn Hcc.
  apply last_is_Some in H1, H2, H3.
  destruct H1 as [c0 H1], H2 as [cI0 H2], H3 as [cT0 H3].
  unfold step_density, py_last. rewrite Hc, HI, H1, H2, H3.
  cbn [mbind option_bind].
  destruct (predict_DRL_FP_returns torch_exp torch_tanh (surrogat_model self) cc
              (time self + predict_dt) dose_c (predict_CSF1RI_cum self) dose_I
              c0 cI0 cT0 predict_dt Hdt Hn Hcc) as (u & cum' & cC & cI & ->).
  cbn [mbind option_bind]. eauto.
Qed.

End StepFacts.

(** ** The reward function *)

Lemma Qle_bool_false (x y : Q) : Qle_bool x y = false <-> y < x.
Proof.
  split.
  - intros H. apply Qnot_le_lt. intros Hle. apply Qle_bool_iff in Hle. congruence.
  - intros H. destruct (Qle_bool x y) eqn:E; [|done].
    apply Qle_bool_iff in E. lra.
Qed.

Lemma reward_function_death death_prob cure_prob survival_prob dose_punish
    action_c action_I lamda time dose_cum :
  death_threshold <= death_prob ->
  reward_function death_prob cure_prob survival_prob dose_punish
    action_c action_I lamda time dose_cum = (- (1 # 10), true).
Proof.
  intros H. unfold reward_function. apply Qle_bool_iff in H. by rewrite H.
Qed.

Lemma reward_function_cure death_prob cure_prob survival_prob dose_punish
    action_c action_I lamda time dose_cum :
  death_prob < death_threshold -> cure_threshold <= cure_prob ->
  reward_function death_prob cure_prob survival_prob dose_punish
    action_c action_I lamda time dose_cum = (11 # 10, true).
Proof.
  intros Hd Hc. unfold reward_function.
  apply Qle_bool_false in Hd. apply Qle_bool_iff in Hc. by rewrite Hd, Hc.
Qed.

Lemma reward_function_running death_prob cure_prob survival_prob dose_punish
    action_c action_I lamda time dose_cum :
  death_prob < death_threshold -> cure_prob < cure_threshold ->
  reward_function death_prob cure_prob survival_prob dose_punish
    action_c action_I lamda time dose_cum
  = (let reward := 1 # 10 in
     let reward :=
       if Qle_bool (death_threshold * (5 # 10)) death_prob
       then reward - (1 # 10) * (dose_punish - inject_Z action_c)
       else if (action_c =? 0)%Z then reward + (5 # 100) else reward in
     let reward :=
       if Qle_bool survival_prob (9 # 10)
       then reward - (1 # 10) * (dose_punish - inject_Z action_I)
       else if (action_I =? 0)%Z then reward + (5 # 100) else reward in
     if Qlt_bool (9 # 10) survival_prob
     then reward + lamda * (time - dose_cum) else reward,
     false).
Proof.
  intros Hd Hc. unfold reward_function.
  apply Qle_bool_false in Hd, Hc. rewrite Hd, Hc. cbn [negb].
  reflexivity.
Qed.

(** ** Constructed objects *)

(** A model object that [RL_dNN.__init__] built has a non-zero substep size
    (the constructor divides by it) and holds the loaded parameters. *)
Lemma RL_dNN_init_facts loaded_log_p_cyto loaded_dnn lb ub dc dt self :
  RL_dNN_init loaded_log_p_cyto loaded_dnn lb ub dc dt = Some self ->
  dt_cyto self = dt /\ ~ dt == 0 /\
  ModelParameters self = (loaded_log_p_cyto, hidden loaded_dnn, final loaded_dnn).
Proof.
  unfold RL_dNN_init. intros H.
  destruct (py_div 1 dc) as [cmax|]; [|done]. cbn [mbind option_bind] in H.
  destruct (py_div 200 dt) as [cum|] eqn:Hcum; [|done].
  apply py_div_Some in Hcum. destruct Hcum as [Hdt _].
  injection H as <-. done.
Qed.

(** [small_model] is what the constructor builds from its loaded parameters,
    the bounds [[0, 1/48]] and [[2, 200]], [dc = 0.01] and
    [dt_cyto = 1/48]. *)
Lemma small_model_constructed :
  RL_dNN_init (fun _ => 0) small_dnn (0, 1 # 48) (2, 200) (1 # 100) (1 # 48)
  = Some small_model.
Proof. reflexivity. Qed.

Lemma Env_init_constructed model initial : constructed (Env_init model initial).
Proof. repeat split; discriminate. Qed.

Lemma reset_constructed self : constructed self -> constructed (reset self).
Proof. intros (Hc & HI & _). repeat split; try done; discriminate. Qed.

Section ReturningSteps.

Variable torch_exp : Q -> Q.
Variable torch_tanh : Q -> Q.

Lemma step_constructed self action_c action_I epi predict_dt cc lamda self' out :
  constructed self ->
  step torch_exp torch_tanh self action_c action_I epi predict_dt cc lamda
  = Some (self', out) ->
  constructed self'.
Proof.
  intros (Hc & HI & _) Hstep. unfold step in Hstep.
  step_lookups self action_c action_I.
  destruct (predict_DRL_FP torch_exp torch_tanh (surrogat_model self) cc
              (time self + predict_dt) dose_c (predict_CSF1RI_cum self) dose_I
              c0 cI0 cT0 predict_dt) as [[m [[[u cum] cC] cI]]|]; [|done].
  cbn [mbind option_bind] in Hstep.
  destruct (reward_function _ _ _ _ _ _ _ _ _) as [reward done].
  injection Hstep as <- _.
  repeat split; try done; cbn; by intros ?%app_eq_nil%proj2.
Qed.

(** On a constructed environment [step] returns exactly when both action
    indices select an entry of the two-value action space, the interval holds
    at least one substep (of non-zero size) and there is at least one bin. *)
Lemma step_returns_iff self action_c action_I epi predict_dt cc lamda :
  constructed self ->
  is_Some (step torch_exp torch_tanh self action_c action_I epi predict_dt cc lamda)
  <-> (-2 <= action_c < 2)%Z /\ (-2 <= action_I < 2)%Z /\
      ~ dt_cyto (surrogat_model self) == 0 /\
      (1 <= py_int (predict_dt / dt_cyto (surrogat_model self)))%Z /\
      cc <> [].
Proof.
  intros (Hc & HI & H1 & H2 & H3).
  assert (forall i : Z, is_Some (py_index [0; 1] i) <-> (-2 <= i < 2)%Z) as Hidx.
  { intros i. unfold py_index. cbn [length].
    destruct (Z.leb_spec 0 i) as [Hi|Hi].
    - rewrite lookup_lt_is_Some. cbn [length]. lia.
    - destruct (Z.leb_spec (- Z.of_nat 2) i) as [Hi'|Hi'].
      + rewrite lookup_lt_is_Some. cbn [length]. lia.
      + split; [by intros [? ?] | lia]. }
  split.
  - intros [r Hstep].
    destruct (step_density_of_step _ _ _ _ _ _ _ _ _ _ Hstep) as [rl Hrl].
    destruct (step_density_substep _ _ _ _ _ _ _ _ Hrl) as (Hdt & Hn & Hcc).
    unfold step_density in Hrl.
    destruct (py_index (action_c_space self) action_c) as [dose_c|] eqn:Ec; [|done].
    destruct (py_index (action_I_space self) action_I) as [dose_I|] eqn:EI; [|done].
    rewrite Hc in Ec. rewrite HI in EI.
    repeat split; try done; try (apply Hidx; eauto).
  - intros (Hac & HaI & Hdt & Hn & Hcc).
    destruct (step_density_returns torch_exp torch_tanh self action_c action_I
                predict_dt cc) as [rl Hrl]; try done.
    + rewrite Hc. by apply Hidx.
    + rewrite HI. by apply Hidx.
    + destruct (step_of_density torch_exp torch_tanh self action_c action_I epi
                  predict_dt cc lamda rl Hrl) as (self' & dose_c & _ & -> & _).
      eauto.
Qed.

End ReturningSteps.

(** ** Claims on the environment *)

(** C2.  For the density vector produced in a call of [Env.step]: if the
    death probability is at least [0.2] (in particular exactly [0.2]) the
    call returns [done = True] and the reward [-0.1]; otherwise, if the cure
    probability is at least [0.99] (in particular exactly [0.99]) it returns
    [done = True] and the reward [1.1]. *)
Theorem terminal_rewards (torch_exp torch_tanh : Q -> Q) (self : Env)
    (action_c action_I epi : Z) (predict_dt : Q) (cc : list Q) (lamda : Q)
    (rl_FP_TC : list (list Q)) :
  step_density torch_exp torch_tanh self action_c action_I predict_dt cc
  = Some rl_FP_TC ->
  exists self' last_state reward done now_state,
    step torch_exp torch_tanh self action_c action_I epi predict_dt cc lamda
    = Some (self', (last_state, reward, done, now_state)) /\
    ((2 # 10) <= death_prob_of rl_FP_TC -> done = true /\ reward = - (1 # 10)) /\
    (death_prob_of rl_FP_TC == 2 # 10 -> done = true /\ reward = - (1 # 10)) /\
    (death_prob_of rl_FP_TC < 2 # 10 -> (99 # 100) <= cure_prob_of rl_FP_TC ->
     done = true /\ reward = 11 # 10) /\
    (death_prob_of rl_FP_TC < 2 # 10 -> cure_prob_of rl_FP_TC == 99 # 100 ->
     done = true /\ reward = 11 # 10).
Proof.
  intros Hrl.
  destruct (step_of_density torch_exp torch_tanh self action_c action_I epi
              predict_dt cc lamda rl_FP_TC Hrl) as (self' & dose_c & _ & Hstep & _).
  eexists _, _, _, _, _. split; [exact Hstep |].
  assert (forall x y : Q, x == y -> y <= x) as Heq by (intros; lra).
  repeat split; intros.
  - by rewrite reward_function_death.
  - by rewrite reward_function_death.
  - rewrite reward_function_death; [done |]. by apply Heq.
  - rewrite reward_function_death; [done |]. by apply Heq.
  - by rewrite reward_function_cure.
  - by rewrite reward_function_cure.
  - rewrite reward_function_cure; [done | done |]. by apply Heq.
  - rewrite reward_function_cure; [done | done |]. by apply Heq.
Qed.

(** C2 on a uniform density over four bins: the death branch. *)
Lemma terminal_rewards_witness :
  exists rl_FP_TC self' last_state reward done now_state,
    step_density exp_standin tanh_standin small_env 1 1 (1 # 48) [2; 2; 2; 2]
    = Some rl_FP_TC /\
    (2 # 10) <= death_prob_of rl_FP_TC /\
    step exp_standin tanh_standin small_env 1 1 0 (1 # 48) [2; 2; 2; 2] 0
    = Some (self', (last_state, reward, done, now_state)) /\
    done = true /\ reward = - (1 # 10).
Proof.
  destruct (step_density exp_standin tanh_standin small_env 1 1 (1 # 48) [2; 2; 2; 2])
    as [rl|] eqn:Hrl; [|vm_compute in Hrl; discriminate].
  assert ((2 # 10) <= death_prob_of rl) as Hdeath.
  { vm_compute in Hrl. injection Hrl as <-. vm_compute. discriminate. }
  destruct (terminal_rewards exp_standin tanh_standin small_env 1 1 0 (1 # 48)
              [2; 2; 2; 2] 0 rl Hrl)
    as (self' & last_state & reward & done & now_state & Hstep & Hd & _).
  destruct (Hd Hdeath) as [-> ->].
  exists rl, self', last_state, (- (1 # 10)), true, now_state. auto.
Defined.

(** C4, as stated, fails: the dose penalty is not
    [0.1 * (max_action_index - action_index)].  With the largest action index
    for both drugs the claim leaves the reward at [0.1], while the step
    returns [0.1 - 2e-8]: the penalty is taken from
    [dose_punish = max_action_index + 1e-7]. *)
Lemma dose_penalty_is_not_index_distance :
  exists rl_FP_TC self' last_state reward now_state,
    step_density exp_standin tanh_standin small_env 1 1 (1 # 48) [18; 2; 2; 2]
    = Some rl_FP_TC /\
    step exp_standin tanh_standin small_env 1 1 0 (1 # 48) [18; 2; 2; 2] 0
    = Some (self', (last_state, reward, false, now_state)) /\
    (1 # 10) <= death_prob_of rl_FP_TC /\
    survival_prob_of rl_FP_TC <= 9 # 10 /\
    ~ reward == (1 # 10) - (1 # 10) * (max_action_index small_env - inject_Z 1)
                         - (1 # 10) * (max_action_index small_env - inject_Z 1) /\
    reward == 4999999 # 50000000.
Proof.
  eexists _, _, _, _, _.
  split; [vm_compute; reflexivity |].
  split; [vm_compute; reflexivity |].
  repeat split; vm_compute; discriminate.
Qed.

(** C4, amended.  On a non-terminal step (the death and cure branches did
    not trigger) [done] is [False] and the reward starts at [0.1]; then, if
    the death probability is [>= 0.1], it is reduced by
    [0.1 * (max_action_index + 1e-7 - action_c)], else if [action_c == 0] it
    is increased by [0.05]; if the survival probability is [<= 0.9], it is
    reduced by [0.1 * (max_action_index + 1e-7 - action_I)], else if
    [action_I == 0] it is increased by [0.05]; and if the survival
    probability is [> 0.9] it is increased by
    [lamda * (time - CSF1RI_dose_cum)], both taken after the step's update. *)
Theorem shaped_reward (torch_exp torch_tanh : Q -> Q) (self : Env)
    (action_c action_I epi : Z) (predict_dt : Q) (cc : list Q) (lamda : Q)
    (rl_FP_TC : list (list Q)) :
  step_density torch_exp torch_tanh self action_c action_I predict_dt cc
  = Some rl_FP_TC ->
  death_prob_of rl_FP_TC < 2 # 10 ->
  cure_prob_of rl_FP_TC < 99 # 100 ->
  exists self' last_state reward now_state r1 r2,
    step torch_exp torch_tanh self action_c action_I epi predict_dt cc lamda
    = Some (self', (last_state, reward, false, now_state)) /\
    ((1 # 10) <= death_prob_of rl_FP_TC ->
     r1 == (1 # 10)
           - (1 # 10) * (max_action_index self + (1 # 10000000) - inject_Z action_c)) /\
    (death_prob_of rl_FP_TC < 1 # 10 -> action_c = 0%Z -> r1 == (1 # 10) + (5 # 100)) /\
    (death_prob_of rl_FP_TC < 1 # 10 -> action_c <> 0%Z -> r1 == 1 # 10) /\
    (survival_prob_of rl_FP_TC <= 9 # 10 ->
     r2 == r1 - (1 # 10) * (max_action_index self + (1 # 10000000) - inject_Z action_I)) /\
    ((9 # 10) < survival_prob_of rl_FP_TC -> action_I = 0%Z -> r2 == r1 + (5 # 100)) /\
    ((9 # 10) < survival_prob_of rl_FP_TC -> action_I <> 0%Z -> r2 == r1) /\
    ((9 # 10) < survival_prob_of rl_FP_TC ->
     reward == r2 + lamda * (time self' - CSF1RI_dose_cum self')) /\
    (survival_prob_of rl_FP_TC <= 9 # 10 -> reward == r2).
Proof.
  intros Hrl Hdeath Hcure.
  destruct (step_of_density torch_exp torch_tanh self action_c action_I epi
              predict_dt cc lamda rl_FP_TC Hrl)
    as (self' & dose_c & _ & Hstep & _ & _ & Htime & Hcum & _).
  rewrite reward_function_running in Hstep by done.
  cbn [fst snd] in Hstep. rewrite <- Htime, <- Hcum in Hstep.
  set (r1 := if Qle_bool (death_threshold * (5 # 10)) (death_prob_of rl_FP_TC)
             then (1 # 10) - (1 # 10) * (dose_punish_of self - inject_Z action_c)
             else if (action_c =? 0)%Z then (1 # 10) + (5 # 100) else 1 # 10) in *.
  set (r2 := if Qle_bool (survival_prob_of rl_FP_TC) (9 # 10)
             then r1 - (1 # 10) * (dose_punish_of self - inject_Z action_I)
             else if (action_I =? 0)%Z then r1 + (5 # 100) else r1) in *.
  eexists self', _, _, _, r1, r2. split; [exact Hstep |].
  assert (Qle_bool (death_threshold * (5 # 10)) (death_prob_of rl_FP_TC) = true
          <-> (1 # 10) <= death_prob_of rl_FP_TC) as Hhalf.
  { rewrite Qle_bool_iff.
    assert (death_threshold * (5 # 10) == 1 # 10) as -> by reflexivity. done. }
  assert (Qle_bool (death_threshold * (5 # 10)) (death_prob_of rl_FP_TC) = false
          <-> death_prob_of rl_FP_TC < 1 # 10) as Hhalf'.
  { rewrite Qle_bool_false.
    assert (death_threshold * (5 # 10) == 1 # 10) as -> by reflexivity. done. }
  repeat split.
  - intros H. apply Hhalf in H. subst r1. rewrite H. reflexivity.
  - intros H ->. apply Hhalf' in H. subst r1. rewrite H. reflexivity.
  - intros H Hne. apply Hhalf' in H. subst r1. rewrite H.
    destruct (Z.eqb_spec action_c 0); [done | reflexivity].
  - intros H. apply Qle_bool_iff in H. subst r2. rewrite H. reflexivity.
  - intros H ->. apply Qle_bool_false in H. subst r2. rewrite H. reflexivity.
  - intros H Hne. apply Qle_bool_false in H. subst r2. rewrite H.
    destruct (Z.eqb_spec action_I 0); [done | reflexivity].
  - intros H. apply Qle_bool_false in H. unfold Qlt_bool. rewrite H. reflexivity.
  - intros H. apply Qle_bool_iff in H. unfold Qlt_bool. rewrite H. reflexivity.
Qed.

(** C4 on the density [[17, 1, 1, 1]]: a non-terminal step. *)
Lemma shaped_reward_witness :
  exists rl_FP_TC self' last_state reward now_state,
    step_density exp_standin tanh_standin small_env 1 1 (1 # 48) [18; 2; 2; 2]
    = Some rl_FP_TC /\
    death_prob_of rl_FP_TC < 2 # 10 /\
    cure_prob_of rl_FP_TC < 99 # 100 /\
    step exp_standin tanh_standin small_env 1 1 0 (1 # 48) [18; 2; 2; 2] 0
    = Some (self', (last_state, reward, false, now_state)).
Proof.
  destruct (step_density exp_standin tanh_standin small_env 1 1 (1 # 48) [18; 2; 2; 2])
    as [rl|] eqn:Hrl; [|vm_compute in Hrl; discriminate].
  assert (death_prob_of rl < 2 # 10 /\ cure_prob_of rl < 99 # 100) as [Hdeath Hcure].
  { vm_compute in Hrl. injection Hrl as <-. split; vm_compute; reflexivity. }
  destruct (shaped_reward exp_standin tanh_standin small_env 1 1 0 (1 # 48)
              [18; 2; 2; 2] 0 rl Hrl Hdeath Hcure)
    as (self' & last_state & reward & now_state & r1 & r2 & Hstep & _).
  exists rl, self', last_state, reward, now_state. auto.
Defined.

(** C5.  A call of [Env.step] records the observation
    [[state_survival, survival_prob_delta]] and keeps [state_survival] as the
    previously recorded value for the next call.  With [epi == 0] the delta
    is [0], whatever the environment holds (earlier episodes, steps already
    taken); with [epi != 0] it is the new [state_survival] minus the
    previously recorded one. *)
Theorem survival_delta_rule (torch_exp torch_tanh : Q -> Q) (self : Env)
    (action_c action_I epi : Z) (predict_dt : Q) (cc : list Q) (lamda : Q)
    (rl_FP_TC : list (list Q)) :
  step_density torch_exp torch_tanh self action_c action_I predict_dt cc
  = Some rl_FP_TC ->
  exists self' last_state reward done survival_prob_delta,
    step torch_exp torch_tanh self action_c action_I epi predict_dt cc lamda
    = Some (self', (last_state, reward, done,
                    state self ++ [(state_survival_of rl_FP_TC, survival_prob_delta)])) /\
    state self' = state self ++ [(state_survival_of rl_FP_TC, survival_prob_delta)] /\
    last_state_survival self' = state_survival_of rl_FP_TC /\
    (epi = 0%Z -> survival_prob_delta = 0) /\
    (epi <> 0%Z ->
     survival_prob_delta = state_survival_of rl_FP_TC - last_state_survival self).
Proof.
  intros Hrl.
  destruct (step_of_density torch_exp torch_tanh self action_c action_I epi
              predict_dt cc lamda rl_FP_TC Hrl)
    as (self' & dose_c & _ & Hstep & Hstate & Hlast & _).
  eexists self', _, _, _, _. split; [exact Hstep |].
  split; [exact Hstate |]. split; [exact Hlast |].
  split; intros He.
  - by rewrite He.
  - by destruct (Z.eqb_spec epi 0).
Qed.

(** C5 on the first step after the construction, with [epi = 0]. *)
Lemma survival_delta_rule_witness :
  exists rl_FP_TC self' last_state reward done,
    step_density exp_standin tanh_standin small_env 1 0 (1 # 48) [18; 2; 2; 2]
    = Some rl_FP_TC /\
    step exp_standin tanh_standin small_env 1 0 0 (1 # 48) [18; 2; 2; 2] 0
    = Some (self', (last_state, reward, done, [(state_survival_of rl_FP_TC, 0)])).
Proof.
  destruct (step_density exp_standin tanh_standin small_env 1 0 (1 # 48) [18; 2; 2; 2])
    as [rl|] eqn:Hrl; [|vm_compute in Hrl; discriminate].
  destruct (survival_delta_rule exp_standin tanh_standin small_env 1 0 0 (1 # 48)
              [18; 2; 2; 2] 0 rl Hrl)
    as (self' & last_state & reward & done & delta & Hstep & _ & _ & H0 & _).
  rewrite (H0 eq_refl) in Hstep.
  exists rl, self', last_state, reward, done. auto.
Defined.

(** C8, as stated, fails: [Env.step] has no parameter for the number of
    trailing bins.  For a caller that wants one trailing bin excluded, the
    survival probability behind the recorded observation is not the mass
    outside that one bin over the total mass (the recorded value is that of
    three excluded bins). *)
Lemma trailing_bins_not_chosen_by_caller :
  exists rl_FP_TC self' last_state reward done state_survival survival_prob_delta,
    step_density exp_standin tanh_standin small_env 1 1 (1 # 48) [2; 2; 2; 2]
    = Some rl_FP_TC /\
    step exp_standin tanh_standin small_env 1 1 0 (1 # 48) [2; 2; 2; 2] 0
    = Some (self', (last_state, reward, done, [(state_survival, survival_prob_delta)])) /\
    ~ state_survival
      == (survival_excluding 1 rl_FP_TC - (1 - (2 # 10))) / (2 # 10) /\
    survival_excluding 1 rl_FP_TC == 3 # 4 /\
    survival_excluding 3 rl_FP_TC == 1 # 4 /\
    survival_prob_of rl_FP_TC == 10000000 # 40000001.
Proof.
  eexists _, _, _, _, _, _, _.
  split; [vm_compute; reflexivity |].
  split; [vm_compute; reflexivity |].
  repeat split; vm_compute; (discriminate || reflexivity).
Qed.

(** C8, amended.  The number of trailing density bins excluded by
    [Env.step] is the constant [3] inside the environment: for every call,
    the survival probability behind the recorded observation is the density
    mass excluding the three top-most bins divided by the total mass plus
    [1e-7]. *)
Theorem trailing_bins_fixed_at_three (torch_exp torch_tanh : Q -> Q) (self : Env)
    (action_c action_I epi : Z) (predict_dt : Q) (cc : list Q) (lamda : Q)
    (rl_FP_TC : list (list Q)) :
  step_density torch_exp torch_tanh self action_c action_I predict_dt cc
  = Some rl_FP_TC ->
  exists self' last_state reward done survival_prob survival_prob_delta,
    step torch_exp torch_tanh self action_c action_I epi predict_dt cc lamda
    = Some (self', (last_state, reward, done,
                    state self ++ [((survival_prob - (1 - (2 # 10))) / (2 # 10),
                                    survival_prob_delta)])) /\
    survival_prob
    = msum (take (length rl_FP_TC - 3) rl_FP_TC) / (msum rl_FP_TC + (1 # 10000000)) /\
    (reward, done)
    = reward_function (1 - survival_prob) (cure_prob_of rl_FP_TC) survival_prob
        (dose_punish_of self) action_c action_I lamda (time self')
        (CSF1RI_dose_cum self').
Proof.
  intros Hrl.
  destruct (step_of_density torch_exp torch_tanh self action_c action_I epi
              predict_dt cc lamda rl_FP_TC Hrl)
    as (self' & dose_c & _ & Hstep & _ & _ & Htime & Hcum & _).
  rewrite <- Htime, <- Hcum in Hstep.
  eexists self', _, _, _, _, _. split; [exact Hstep |].
  split; [reflexivity |]. symmetry. apply surjective_pairing.
Qed.

(** C8 on a uniform density over four bins. *)
Lemma trailing_bins_fixed_at_three_witness :
  exists rl_FP_TC self' last_state reward done survival_prob survival_prob_delta,
    step_density exp_standin tanh_standin small_env 1 1 (1 # 48) [2; 2; 2; 2]
    = Some rl_FP_TC /\
    step exp_standin tanh_standin small_env 1 1 0 (1 # 48) [2; 2; 2; 2] 0
    = Some (self', (last_state, reward, done,
                    [((survival_prob - (1 - (2 # 10))) / (2 # 10), survival_prob_delta)])) /\
    survival_prob
    = msum (take (length rl_FP_TC - 3) rl_FP_TC) / (msum rl_FP_TC + (1 # 10000000)).
Proof.
  destruct (step_density exp_standin tanh_standin small_env 1 1 (1 # 48) [2; 2; 2; 2])
    as [rl|] eqn:Hrl; [|vm_compute in Hrl; discriminate].
  destruct (trailing_bins_fixed_at_three exp_standin tanh_standin small_env 1 1 0
              (1 # 48) [2; 2; 2; 2] 0 rl Hrl)
    as (self' & last_state & reward & done & sp & delta & Hstep & Hsp & _).
  exists rl, self', last_state, reward, done, sp, delta. auto.
Defined.

(** ** Normalisation and the weighted mean *)

Lemma vsum_cons x l : vsum (x :: l) = x + vsum l.
Proof. reflexivity. Qed.

Lemma msum_cons row m : msum (row :: m) = vsum row + msum m.
Proof. reflexivity. Qed.

Lemma vsum_scaled_row (s c : Q) (row : list Q) :
  vsum (map (fun x => x * c) (map (fun x => x / s) row))
  == vsum (map (fun x => x * c) row) / s.
Proof.
  induction row as [|x row IH]; cbn [map].
  - unfold vsum. cbn [foldr]. unfold Qdiv. ring.
  - rewrite !vsum_cons, IH. unfold Qdiv. ring.
Qed.

Lemma weighted_sum_scaled (s : Q) (v : list (list Q)) (c : list Q) :
  weighted_sum (map (map (fun x => x / s)) v) c == weighted_sum v c / s.
Proof.
  unfold weighted_sum. revert c.
  induction v as [|row v IH]; intros c; cbn [map zip_with].
  - unfold msum, vsum. cbn [map foldr]. unfold Qdiv. ring.
  - destruct c as [|c1 c].
    + unfold msum, vsum. cbn [map foldr]. unfold Qdiv. ring.
    + rewrite !msum_cons, IH, vsum_scaled_row. unfold Qdiv. ring.
Qed.

(** C9, as stated, fails: for the one-bin density [[1]] with bin centre [1]
    the mean of the normalised density is [1 / (1 + 1e-7)], the direct mean
    over the unnormalised sum is [1]. *)
Lemma normalised_mean_differs_from_direct_mean :
  length [[1]] = length [1] /\
  ~ weighted_sum (normalization [[1]]) [1] == direct_mean [[1]] [1] /\
  weighted_sum (normalization [[1]]) [1] == 10000000 # 10000001 /\
  direct_mean [[1]] [1] == 1.
Proof.
  split; [reflexivity |]. split; [vm_compute; discriminate |].
  split; vm_compute; reflexivity.
Qed.

(** C9, amended.  For a density [v] and bin centres [c] of the same length,
    normalising [v] (dividing by [sum(v) + 1e-7]) and then taking the
    weighted sum against [c] yields [sum(v*c) / (sum(v) + 1e-7)]; for a
    non-zero [sum(v)] that is the direct mean [sum(v*c) / sum(v)] scaled by
    [sum(v) / (sum(v) + 1e-7)]. *)
Theorem normalised_mean (v : list (list Q)) (c : list Q) :
  length v = length c ->
  weighted_sum (normalization v) c == weighted_sum v c / (msum v + (1 # 10000000)) /\
  (~ msum v == 0 ->
   weighted_sum (normalization v) c
   == direct_mean v c * (msum v / (msum v + (1 # 10000000)))).
Proof.
  intros _. unfold normalization, direct_mean, eps.
  rewrite weighted_sum_scaled. split; [reflexivity |].
  intros Hs. unfold Qdiv.
  transitivity (weighted_sum v c * / (msum v + (1 # 10000000)) * (msum v * / msum v)).
  - rewrite Qmult_inv_r by exact Hs. ring.
  - ring.
Qed.

(** C9 on the two-bin density [[1, 3]] with centres [[1, 2]]. *)
Lemma normalised_mean_witness :
  length [[1]; [3]] = length [1; 2] /\
  weighted_sum (normalization [[1]; [3]]) [1; 2]
  == weighted_sum [[1]; [3]] [1; 2] / (msum [[1]; [3]] + (1 # 10000000)).
Proof.
  split; [reflexivity |].
  apply (normalised_mean [[1]; [3]] [1; 2]). reflexivity.
Defined.

(** ** Runs of the environment *)

Lemma py_int_at_least_one (q : Q) : (1 <= py_int q)%Z -> 1 <= q.
Proof.
  intros H. rewrite Zle_Qle in H. change (inject_Z 1) with 1 in H.
  destruct (py_int_bounds q) as (z & Hz & Hpos & Hneg). rewrite <- Hz in H. clear Hz.
  destruct (Qlt_le_dec q 0) as [H0|H0].
  - destruct (Hneg (Qlt_le_weak _ _ H0)). lra.
  - destruct (Hpos H0). lra.
Qed.

Lemma Qdiv_at_least_one (x y : Q) : 0 < y -> 1 <= x / y -> y <= x.
Proof.
  intros Hy H. apply (Qmult_le_compat_r _ _ y) in H; [|lra].
  assert (x / y * y == x) as E by (field; lra). rewrite E in H. lra.
Qed.

Section RunFacts.

Variable torch_exp : Q -> Q.
Variable torch_tanh : Q -> Q.

(** With a positive substep size a returning step has a positive interval. *)
Lemma step_interval_positive self action_c action_I epi predict_dt cc lamda r :
  0 < dt_cyto (surrogat_model self) ->
  step torch_exp torch_tanh self action_c action_I epi predict_dt cc lamda = Some r ->
  0 < predict_dt.
Proof.
  intros Hdt Hstep.
  destruct (step_density_of_step _ _ _ _ _ _ _ _ _ _ Hstep) as [rl Hrl].
  destruct (step_density_substep _ _ _ _ _ _ _ _ Hrl) as (_ & Hn & _).
  apply py_int_at_least_one, Qdiv_at_least_one in Hn; [lra | done].
Qed.



End RunFacts.

(** [backward_model] is what the constructor builds from the parameters of
    [small_model] and the substep size [-1/48]. *)
Lemma backward_model_constructed :
  RL_dNN_init (fun _ => 0) small_dnn (0, 1 # 48) (2, 200) (1 # 100) (- (1 # 48))
  = Some backward_model.
Proof. reflexivity. Qed.




(** ** The closed form of a whole trajectory *)

Lemma closed_form_steady (torch_exp : Q -> Q) (a b dose dt c : Q) :
  closed_form torch_exp a b dose dt c
  == a * dose / (a + b) + (c - a * dose / (a + b)) * torch_exp (- (a + b) * dt).
Proof. unfold closed_form. ring. Qed.

Lemma closed_form_iterated (torch_exp : Q -> Q) (a b dose dt c0 : Q) (k : nat) :
  Nat.iter k (closed_form torch_exp a b dose dt) c0
  == a * dose / (a + b)
     + (c0 - a * dose / (a + b)) * torch_exp (- (a + b) * dt) ^ Z.of_nat k.
Proof.
  induction k as [|k IH].
  - simpl. ring.
  - rewrite Nat.iter_succ. unfold closed_form at 1. rewrite IH.
    replace (Z.of_nat (S k)) with (1 + Z.of_nat k)%Z by lia.
    rewrite Qpower_plus' by lia. rewrite Qpower_1_r. ring.
Qed.

Lemma recurrence_values (torch_exp : Q -> Q) (a b dose dt c0 interval : Q) c :
  recurrence torch_exp a b dose dt c0 interval = Some c ->
  forall (j : nat) (x : Q), c !! j = Some x ->
    x == a * dose / (a + b)
         + (c0 - a * dose / (a + b))
           * torch_exp (- (a + b) * dt) ^ Z.of_nat (S j).
Proof.
  unfold recurrence. intros H j x Hx.
  destruct (py_div interval dt) as [q|]; [|done]. cbn [mbind option_bind] in H.
  destruct (1 <=? py_int q)%Z; [|done]. injection H as <-.
  assert (j < Z.to_nat (py_int q))%nat as Hj.
  { apply lookup_lt_Some in Hx. by rewrite trajectory_length in Hx. }
  rewrite trajectory_lookup in Hx by done. injection Hx as <-.
  apply (closed_form_iterated torch_exp a b dose dt c0 (S j)).
Qed.

(** X1.  Every value of a returned trajectory of [f_CSF1RI] or [f_IGF1RI] has
    the geometric form: with the steady state [s = a*dose/(a+b)] and the
    decay factor [e = exp(-(a+b)*dt_cyto)], the value at index [j] is
    [s + (c0 - s) * e^(j+1)]. *)
Theorem integrator_values_geometric (torch_exp : Q -> Q) (self : RL_dNN)
    (c0 dose C_T interval : Q) :
  (forall c, f_CSF1RI torch_exp self c0 dose interval = Some c ->
     forall (j : nat) (x : Q), c !! j = Some x ->
       let a := torch_exp (log_p_cyto self 10) * q_c self in
       let b := torch_exp (log_p_cyto self 11) * eta_c self
                + torch_exp (log_p_cyto self 12) * mu_c self in
       x == a * dose / (a + b)
            + (c0 - a * dose / (a + b))
              * torch_exp (- (a + b) * dt_cyto self) ^ Z.of_nat (S j)) /\
  (forall c, f_IGF1RI torch_exp self c0 dose C_T interval = Some c ->
     forall (j : nat) (x : Q), c !! j = Some x ->
       let a := torch_exp (log_p_cyto self 13) * q_i self in
       let b := torch_exp (log_p_cyto self 14) * eta_i self
                + torch_exp (log_p_cyto self 15) * mu_i self * C_T in
       x == a * dose / (a + b)
            + (c0 - a * dose / (a + b))
              * torch_exp (- (a + b) * dt_cyto self) ^ Z.of_nat (S j)).
Proof.
  split; intros c Hc j x Hx.
  - rewrite f_CSF1RI_recurrence in Hc. exact (recurrence_values _ _ _ _ _ _ _ _ Hc j x Hx).
  - rewrite f_IGF1RI_recurrence in Hc. exact (recurrence_values _ _ _ _ _ _ _ _ Hc j x Hx).
Qed.

(** ** Pharmacokinetics of a prediction *)

Section PredictKinetics.

Variable torch_exp : Q -> Q.
Variable torch_tanh : Q -> Q.

(** The kinetic part of what [predict_DRL_FP] returns. *)
Lemma predict_kinetics (self : RL_dNN) (c : list Q)
    (t dose_c CSF1RI_cum dose_I c_CSF1RI_0 c_IGF1RI_0 c_T_0 interval : Q)
    self' uTC_pred CSF1RI_cum' c_CSF1RI_k c_IGF1RI_k :
  predict_DRL_FP torch_exp torch_tanh self c t dose_c CSF1RI_cum dose_I
    c_CSF1RI_0 c_IGF1RI_0 c_T_0 interval
  = Some (self', (uTC_pred, CSF1RI_cum', c_CSF1RI_k, c_IGF1RI_k)) ->
  let k := Z.to_nat (py_int (interval / dt_cyto self)) in
  let upd_c := closed_form torch_exp (rate_a_CSF1RI torch_exp self)
                 (rate_b_CSF1RI torch_exp self) dose_c (dt_cyto self) in
  let upd_I := closed_form torch_exp (rate_a_IGF1RI torch_exp self)
                 (rate_b_IGF1RI torch_exp self c_T_0) dose_I (dt_cyto self) in
  (1 <= k)%nat /\
  f_CSF1RI torch_exp self c_CSF1RI_0 dose_c interval
  = Some (trajectory upd_c c_CSF1RI_0 k) /\
  CSF1RI_cum' = CSF1RI_cum + vsum (trajectory upd_c c_CSF1RI_0 k) /\
  c_CSF1RI_k == Nat.iter k upd_c c_CSF1RI_0 /\
  c_IGF1RI_k == Nat.iter k upd_I c_IGF1RI_0.
Proof.
  intros Hp k upd_c upd_I.
  pose proof (proj1 (predict_DRL_FP_is_Some torch_exp torch_tanh self c t dose_c
                       CSF1RI_cum dose_I c_CSF1RI_0 c_IGF1RI_0 c_T_0 interval)
                (ex_intro _ _ Hp)) as (Hdt & Hn & _).
  apply predict_DRL_FP_inv in Hp.
  destruct Hp as (_ & cs & ci & lc & li & Hcs & Hci & Hlc & Hli & _ & -> & -> & -> & _).
  pose proof (py_div_nonzero interval _ Hdt) as Hq.
  change (dt_cyto self) with (dt_cyto (eval_mode self)) in Hq.
  rewrite (f_CSF1RI_returns torch_exp (eval_mode self) _ _ _ _ Hq Hn) in Hcs.
  rewrite (f_IGF1RI_returns torch_exp (eval_mode self) _ _ _ _ _ Hq Hn) in Hci.
  injection Hcs as <-. injection Hci as <-.
  change (dt_cyto (eval_mode self)) with (dt_cyto self) in *.
  fold k in Hlc, Hli.
  assert (1 <= k)%nat as Hk by (subst k; lia).
  assert (k = S (Nat.pred k)) as Ek by lia.
  rewrite Ek, py_last_trajectory, <- Ek in Hlc, Hli.
  injection Hlc as <-. injection Hli as <-.
  split; [done |]. split.
  { apply (f_CSF1RI_returns torch_exp self c_CSF1RI_0 dose_c interval _
             (py_div_nonzero interval _ Hdt) Hn). }
  split; [reflexivity |]. split; apply Qmult_1_r.
Qed.

(** X3.  A returning [predict_DRL_FP] ran [k = int(interval/dt_cyto) >= 1]
    substeps: it adds the sum of the CSF1R-inhibitor trajectory to the
    cumulative exposure, and the two concentrations it returns are the
    closed-form update applied [k] times to the initial concentrations. *)
Theorem predict_DRL_FP_pharmacokinetics (self : RL_dNN) (c : list Q)
    (t dose_c CSF1RI_cum dose_I c_CSF1RI_0 c_IGF1RI_0 c_T_0 interval : Q)
    self' uTC_pred CSF1RI_cum' c_CSF1RI_k c_IGF1RI_k :
  predict_DRL_FP torch_exp torch_tanh self c t dose_c CSF1RI_cum dose_I
    c_CSF1RI_0 c_IGF1RI_0 c_T_0 interval
  = Some (self', (uTC_pred, CSF1RI_cum', c_CSF1RI_k, c_IGF1RI_k)) ->
  let k := Z.to_nat (py_int (interval / dt_cyto self)) in
  let upd_c := closed_form torch_exp (rate_a_CSF1RI torch_exp self)
                 (rate_b_CSF1RI torch_exp self) dose_c (dt_cyto self) in
  let upd_I := closed_form torch_exp (rate_a_IGF1RI torch_exp self)
                 (rate_b_IGF1RI torch_exp self c_T_0) dose_I (dt_cyto self) in
  (1 <= k)%nat /\
  f_CSF1RI torch_exp self c_CSF1RI_0 dose_c interval
  = Some (trajectory upd_c c_CSF1RI_0 k) /\
  CSF1RI_cum' = CSF1RI_cum + vsum (trajectory upd_c c_CSF1RI_0 k) /\
  c_CSF1RI_k == Nat.iter k upd_c c_CSF1RI_0 /\
  c_IGF1RI_k == Nat.iter k upd_I c_IGF1RI_0.
Proof. apply predict_kinetics. Qed.

End PredictKinetics.

(** ** Steps and runs, field by field *)

Lemma py_index_two_values (i : Z) (d : Q) :
  py_index [0; 1] i = Some d -> d = 0 \/ d = 1.
Proof.
  unfold py_index. cbn [length].
  destruct (0 <=? i)%Z.
  - destruct (Z.to_nat i) as [|[|n]]; cbn; intros [= <-]; auto.
  - destruct (- Z.of_nat 2 <=? i)%Z; [|done].
    destruct (Z.to_nat (Z.of_nat 2 + i)) as [|[|n]]; cbn; intros [= <-]; auto.
Qed.

Section StepFields.

Variable torch_exp : Q -> Q.
Variable torch_tanh : Q -> Q.

(** Every read and every write of a returning [step]. *)
Lemma step_inv self action_c action_I epi predict_dt cc lamda self' out :
  step torch_exp torch_tanh self action_c action_I epi predict_dt cc lamda
  = Some (self', out) ->
  exists dose_c dose_I c0 cI0 cT0 rl cum cC cI,
    py_index (action_c_space self) action_c = Some dose_c /\
    py_index (action_I_space self) action_I = Some dose_I /\
    py_last (predict_CSF1RI_list self) = Some c0 /\
    py_last (predict_IGF1RI_list self) = Some cI0 /\
    py_last (predict_TC_list self) = Some cT0 /\
    predict_DRL_FP torch_exp torch_tanh (surrogat_model self) cc
      (time self + predict_dt) dose_c (predict_CSF1RI_cum self) dose_I
      c0 cI0 cT0 predict_dt
    = Some (eval_mode (surrogat_model self), (rl, cum, cC, cI)) /\
    step_density torch_exp torch_tanh self action_c action_I predict_dt cc = Some rl /\
    self' = {| state := state self
                 ++ [(state_survival_of rl,
                      if (epi =? 0)%Z then 0
                      else state_survival_of rl - last_state_survival self)];
               action_c_space := action_c_space self;
               action_I_space := action_I_space self;
               surrogat_model := eval_mode (surrogat_model self);
               initial := initial self;
               predict_CSF1RI_list := predict_CSF1RI_list self ++ [cC];
               predict_IGF1RI_list := predict_IGF1RI_list self ++ [cI];
               predict_TC_list :=
                 predict_TC_list self ++ [weighted_sum (normalization rl) cc];
               predict_CSF1RI_cum := cum;
               CSF1RI_dose_cum := CSF1RI_dose_cum self + dose_c * predict_dt;
               last_state_survival := state_survival_of rl;
               time := time self + predict_dt |}.
Proof.
  unfold step, step_density. intros H.
  destruct (py_index (action_c_space self) action_c) as [dose_c|]; [|done].
  destruct (py_index (action_I_space self) action_I) as [dose_I|]; [|done].
  destruct (py_last (predict_CSF1RI_list self)) as [c0|]; [|done].
  destruct (py_last (predict_IGF1RI_list self)) as [cI0|]; [|done].
  destruct (py_last (predict_TC_list self)) as [cT0|]; [|done].
  cbn [mbind option_bind] in *.
  destruct (predict_DRL_FP torch_exp torch_tanh (surrogat_model self) cc
              (time self + predict_dt) dose_c (predict_CSF1RI_cum self) dose_I
              c0 cI0 cT0 predict_dt) as [[m [[[u cum] cC] cI]]|] eqn:Hp; [|done].
  cbn [mbind option_bind fst snd] in *.
  destruct (reward_function _ _ _ _ _ _ _ _ _) as [reward done].
  injection H as <- _.
  pose proof (predict_DRL_FP_inv _ _ _ _ _ _ _ _ _ _ _ _ _ _ _ _ _ Hp) as [-> _].
  exists dose_c, dose_I, c0, cI0, cT0, u, cum, cC, cI. repeat split; done.
Qed.

(** A property kept by [reset] and by every returning [step] holds after
    every run. *)
Lemma run_invariant (P : Env -> Prop) :
  (forall self, P self -> P (reset self)) ->
  (forall self action_c action_I epi predict_dt cc lamda self' out,
      P self ->
      step torch_exp torch_tanh self action_c action_I epi predict_dt cc lamda
      = Some (self', out) ->
      P self') ->
  forall calls self self',
    P self -> run torch_exp torch_tanh self calls = Some self' -> P self'.
Proof.
  intros Hreset Hstep calls.
  induction calls as [|call calls IH]; intros self self' HP Hrun.
  - by injection Hrun as <-.
  - destruct call as [|action_c action_I epi predict_dt cc lamda]; cbn [run] in Hrun.
    + eapply IH; [|exact Hrun]. by apply Hreset.
    + destruct (step torch_exp torch_tanh self action_c action_I epi predict_dt cc lamda)
        as [[e out]|] eqn:E; [|done].
      cbn [mbind option_bind fst] in Hrun.
      eapply IH; [|exact Hrun]. eapply Hstep; [exact HP | exact E].
Qed.

End StepFields.

(** ** Sums of non-negative densities *)

Lemma vsum_nonneg (row : list Q) : Forall (fun x => 0 <= x) row -> 0 <= vsum row.
Proof.
  induction 1 as [|x row Hx _ IH]; [apply Qle_refl |].
  rewrite vsum_cons. lra.
Qed.

Lemma msum_nonneg (u : list (list Q)) : nonneg_rows u -> 0 <= msum u.
Proof.
  induction 1 as [|row u Hrow _ IH]; [apply Qle_refl |].
  rewrite msum_cons. pose proof (vsum_nonneg row Hrow). lra.
Qed.

Lemma msum_take_le (k : nat) (u : list (list Q)) :
  nonneg_rows u -> msum (take k u) <= msum u.
Proof.
  intros Hu. revert k. induction Hu as [|row u Hrow Hu IH]; intros k.
  - destruct k; apply Qle_refl.
  - destruct k as [|k]; cbn [take].
    + apply (msum_nonneg (row :: u)). by constructor.
    + rewrite !msum_cons. specialize (IH k). lra.
Qed.

Lemma msum_take_mono (j k : nat) (u : list (list Q)) :
  nonneg_rows u -> (j <= k)%nat -> msum (take j u) <= msum (take k u).
Proof.
  intros Hu Hjk.
  replace (take j u) with (take j (take k u)) by (rewrite take_take; f_equal; lia).
  apply msum_take_le. by apply Forall_take.
Qed.

Lemma Qdiv_nonneg (x y : Q) : 0 <= x -> 0 < y -> 0 <= x / y.
Proof. intros Hx Hy. apply Qle_shift_div_l; [done | lra]. Qed.

Lemma Qdiv_lt_1 (x y : Q) : 0 < y -> x < y -> x / y < 1.
Proof. intros Hy Hx. apply Qlt_shift_div_r; [done | lra]. Qed.

Lemma Qdiv_le_div (x x' y : Q) : 0 < y -> x <= x' -> x / y <= x' / y.
Proof.
  intros Hy Hx. unfold Qdiv. apply Qmult_le_compat_r; [done |].
  apply Qlt_le_weak, Qinv_lt_0_compat, Hy.
Qed.

Lemma eps_positive : 0 < eps.
Proof. reflexivity. Qed.

(** The three probabilities of a non-negative density. *)
Lemma probabilities_of_nonneg (rl : list (list Q)) :
  nonneg_rows rl ->
  0 <= survival_prob_of rl /\ survival_prob_of rl < 1 /\
  0 <= cure_prob_of rl /\ cure_prob_of rl < 1 /\
  ((4 <= length rl)%nat -> cure_prob_of rl <= survival_prob_of rl) /\
  ((length rl <= 3)%nat -> survival_prob_of rl == 0).
Proof.
  intros Hrl. unfold survival_prob_of, cure_prob_of.
  pose proof (msum_nonneg rl Hrl) as Hs. pose proof eps_positive as He.
  assert (0 < msum rl + eps) as Hden by lra.
  assert (forall k, 0 <= msum (take k rl)) as Hk.
  { intros k. apply msum_nonneg. by apply Forall_take. }
  pose proof (msum_take_le (length rl - 3) rl Hrl).
  pose proof (msum_take_le 1 rl Hrl).
  repeat split.
  - apply Qdiv_nonneg; [apply Hk | done].
  - apply Qdiv_lt_1; [done | lra].
  - apply Qdiv_nonneg; [apply Hk | done].
  - apply Qdiv_lt_1; [done | lra].
  - intros Hn. apply Qdiv_le_div; [done |]. apply msum_take_mono; [done | lia].
  - intros Hn. replace (length rl - 3)%nat with 0%nat by lia.
    rewrite take_0. change (msum []) with 0. unfold Qdiv. ring.
Qed.

Section DensityFacts.

Variable torch_exp : Q -> Q.
Variable torch_tanh : Q -> Q.

(** The density of a step has one row per bin and no negative entry. *)
Lemma step_density_shape self action_c action_I predict_dt cc rl :
  step_density torch_exp torch_tanh self action_c action_I predict_dt cc = Some rl ->
  length rl = length cc /\ nonneg_rows rl.
Proof.
  unfold step_density. intros H.
  destruct (py_index (action_c_space self) action_c) as [dose_c|]; [|done].
  destruct (py_index (action_I_space self) action_I) as [dose_I|]; [|done].
  destruct (py_last (predict_CSF1RI_list self)) as [c0|]; [|done].
  destruct (py_last (predict_IGF1RI_list self)) as [cI0|]; [|done].
  destruct (py_last (predict_TC_list self)) as [cT0|]; [|done].
  cbn [mbind option_bind] in *.
  destruct (predict_DRL_FP torch_exp torch_tanh (surrogat_model self) cc
              (time self + predict_dt) dose_c (predict_CSF1RI_cum self) dose_I
              c0 cI0 cT0 predict_dt) as [[m [[[u cum] cC] cI]]|] eqn:Hp; [|done].
  cbn [mbind option_bind fst snd] in H. injection H as <-.
  apply predict_DRL_FP_inv in Hp.
  destruct Hp as (_ & cs & ci & lc & li & _ & _ & _ & _ & _ & _ & _ & _ & ->).
  split.
  - rewrite length_clamp_negative. apply length_net_u_CC; apply length_broadcast.
  - apply clamp_negative_nonneg.
Qed.

End DensityFacts.

(** ** Probabilities, termination and reward regimes of a step *)

Lemma reward_function_cases death_prob cure_prob survival_prob dose_punish
    action_c action_I lamda time dose_cum :
  (death_threshold <= death_prob /\
   reward_function death_prob cure_prob survival_prob dose_punish
     action_c action_I lamda time dose_cum = (- (1 # 10), true)) \/
  (death_prob < death_threshold /\ cure_threshold <= cure_prob /\
   reward_function death_prob cure_prob survival_prob dose_punish
     action_c action_I lamda time dose_cum = (11 # 10, true)) \/
  (death_prob < death_threshold /\ cure_prob < cure_threshold /\
   snd (reward_function death_prob cure_prob survival_prob dose_punish
          action_c action_I lamda time dose_cum) = false).
Proof.
  destruct (Qlt_le_dec death_prob death_threshold) as [Hd|Hd].
  - destruct (Qlt_le_dec cure_prob cure_threshold) as [Hc|Hc].
    + right. right. split; [done |]. split; [done |].
      by rewrite reward_function_running.
    + right. left. split; [done |]. split; [done |]. by apply reward_function_cure.
  - left. split; [done |]. by apply reward_function_death.
Qed.

Section StepRegimes.

Variable torch_exp : Q -> Q.
Variable torch_tanh : Q -> Q.

(** X6.  For the density produced in a step the survival probability, the
    death probability and the cure probability are in [[0, 1]], and the
    recorded [state_survival] is in [[-4, 1]]. *)
Theorem step_probabilities_in_range (self : Env) (action_c action_I : Z)
    (predict_dt : Q) (cc : list Q) (rl_FP_TC : list (list Q)) :
  step_density torch_exp torch_tanh self action_c action_I predict_dt cc
  = Some rl_FP_TC ->
  0 <= survival_prob_of rl_FP_TC /\ survival_prob_of rl_FP_TC <= 1 /\
  0 <= death_prob_of rl_FP_TC /\ death_prob_of rl_FP_TC <= 1 /\
  0 <= cure_prob_of rl_FP_TC /\ cure_prob_of rl_FP_TC <= 1 /\
  - (4) <= state_survival_of rl_FP_TC /\ state_survival_of rl_FP_TC <= 1.
Proof.
  intros Hrl. destruct (step_density_shape _ _ _ _ _ _ _ _ Hrl) as [_ Hnn].
  destruct (probabilities_of_nonneg rl_FP_TC Hnn) as (H1 & H2 & H3 & H4 & _).
  unfold death_prob_of, state_survival_of, death_threshold.
  repeat split; try lra.
  - apply Qle_shift_div_l; [reflexivity | lra].
  - apply Qle_shift_div_r; [reflexivity | lra].
Qed.

(** X7.  With three bins or fewer the slice [rl_FP_TC[:-3, :]] is empty: the
    survival probability is [0] and every returning step is terminal with the
    reward [-0.1]. *)
Theorem few_bins_always_terminal (self : Env) (action_c action_I epi : Z)
    (predict_dt : Q) (cc : list Q) (lamda : Q) (rl_FP_TC : list (list Q)) :
  step_density torch_exp torch_tanh self action_c action_I predict_dt cc
  = Some rl_FP_TC ->
  (length cc <= 3)%nat ->
  survival_prob_of rl_FP_TC == 0 /\
  exists self' last_state now_state,
    step torch_exp torch_tanh self action_c action_I epi predict_dt cc lamda
    = Some (self', (last_state, - (1 # 10), true, now_state)).
Proof.
  intros Hrl Hn. destruct (step_density_shape _ _ _ _ _ _ _ _ Hrl) as [Hlen Hnn].
  destruct (probabilities_of_nonneg rl_FP_TC Hnn) as (_ & _ & _ & _ & _ & H0).
  specialize (H0 ltac:(lia)). split; [exact H0 |].
  destruct (step_of_density torch_exp torch_tanh self action_c action_I epi
              predict_dt cc lamda rl_FP_TC Hrl) as (self' & dose_c & _ & Hstep & _).
  rewrite reward_function_death in Hstep.
  - eauto.
  - unfold death_prob_of, death_threshold. lra.
Qed.

(** X8.  A step is terminal exactly when the death probability is at least
    [0.2] or the cure probability at least [0.99]; it returns the reward
    [-0.1] with [done] exactly in the first case, and the reward [1.1] with
    [done] exactly when there are at least four bins and the cure probability
    is at least [0.99] (the death branch cannot trigger then). *)
Theorem step_terminal_exactly_when (self : Env) (action_c action_I epi : Z)
    (predict_dt : Q) (cc : list Q) (lamda : Q) (rl_FP_TC : list (list Q)) :
  step_density torch_exp torch_tanh self action_c action_I predict_dt cc
  = Some rl_FP_TC ->
  exists self' last_state reward done now_state,
    step torch_exp torch_tanh self action_c action_I epi predict_dt cc lamda
    = Some (self', (last_state, reward, done, now_state)) /\
    (done = true <->
     (2 # 10) <= death_prob_of rl_FP_TC \/ (99 # 100) <= cure_prob_of rl_FP_TC) /\
    (done = true /\ reward = - (1 # 10) <-> (2 # 10) <= death_prob_of rl_FP_TC) /\
    (done = true /\ reward = 11 # 10 <->
     (4 <= length cc)%nat /\ (99 # 100) <= cure_prob_of rl_FP_TC).
Proof.
  intros Hrl. destruct (step_density_shape _ _ _ _ _ _ _ _ Hrl) as [Hlen Hnn].
  destruct (probabilities_of_nonneg rl_FP_TC Hnn) as (Hs0 & Hs1 & Hc0 & Hc1 & Hcs & Hfew).
  rewrite Hlen in Hcs, Hfew.
  destruct (step_of_density torch_exp torch_tanh self action_c action_I epi
              predict_dt cc lamda rl_FP_TC Hrl) as (self' & dose_c & _ & Hstep & _).
  eexists _, _, _, _, _. split; [exact Hstep |].
  assert (death_prob_of rl_FP_TC == 1 - survival_prob_of rl_FP_TC) as Hdeath
    by reflexivity.
  destruct (reward_function_cases (death_prob_of rl_FP_TC) (cure_prob_of rl_FP_TC)
              (survival_prob_of rl_FP_TC) (dose_punish_of self) action_c action_I lamda
              (time self + predict_dt) (CSF1RI_dose_cum self + dose_c * predict_dt))
    as [[Hd ->]|[(Hd & Hc & ->)|(Hd & Hc & Hrun)]];
    unfold death_threshold, cure_threshold in *; cbn [fst snd].
  - split; [|split].
    + split; [auto | done].
    + split; [auto | done].
    + split; [by intros [_ [=]] | intros [Hn Hc]; specialize (Hcs Hn); lra].
  - split; [|split].
    + split; [auto | done].
    + split; [by intros [_ [=]] | intros; lra].
    + split; [|done]. intros _. split; [|done].
      destruct (le_lt_dec 4 (length cc)) as [|Hlt]; [done |].
      specialize (Hfew ltac:(lia)). lra.
  - rewrite Hrun. split; [|split].
    + split; [done | intros [?|?]; lra].
    + split; [by intros [? _] | intros; lra].
    + split; [by intros [? _] | intros [_ ?]; lra].
Qed.

(** X9.  A non-terminal step is in one of two regimes.  With a death
    probability of at least [0.1] both dose penalties apply and nothing else:
    the reward is [0.1 - 0.1*(dose_punish - action_c)
    - 0.1*(dose_punish - action_I)].  Below [0.1] no penalty applies: the
    reward is [0.1] plus [0.05] for each action index that is [0] plus
    [lamda * (time - CSF1RI_dose_cum)]. *)
Theorem running_reward_two_regimes (self : Env) (action_c action_I epi : Z)
    (predict_dt : Q) (cc : list Q) (lamda : Q) (rl_FP_TC : list (list Q)) :
  step_density torch_exp torch_tanh self action_c action_I predict_dt cc
  = Some rl_FP_TC ->
  death_prob_of rl_FP_TC < 2 # 10 ->
  cure_prob_of rl_FP_TC < 99 # 100 ->
  exists self' last_state reward now_state,
    step torch_exp torch_tanh self action_c action_I epi predict_dt cc lamda
    = Some (self', (last_state, reward, false, now_state)) /\
    ((1 # 10) <= death_prob_of rl_FP_TC ->
     reward == (1 # 10)
               - (1 # 10) * (dose_punish_of self - inject_Z action_c)
               - (1 # 10) * (dose_punish_of self - inject_Z action_I)) /\
    (death_prob_of rl_FP_TC < 1 # 10 ->
     reward == (1 # 10)
               + (if (action_c =? 0)%Z then 5 # 100 else 0)
               + (if (action_I =? 0)%Z then 5 # 100 else 0)
               + lamda * (time self' - CSF1RI_dose_cum self')).
Proof.
  intros Hrl Hdeath Hcure.
  destruct (step_of_density torch_exp torch_tanh self action_c action_I epi
              predict_dt cc lamda rl_FP_TC Hrl)
    as (self' & dose_c & _ & Hstep & _ & _ & Htime & Hcum & _).
  rewrite reward_function_running in Hstep by done.
  cbn [fst snd] in Hstep. rewrite <- Htime, <- Hcum in Hstep.
  eexists self', _, _, _. split; [exact Hstep |].
  assert (death_threshold * (5 # 10) == 1 # 10) as Hhalf by reflexivity.
  assert (death_prob_of rl_FP_TC == 1 - survival_prob_of rl_FP_TC) as Hd
    by reflexivity.
  split; intros H.
  - assert (Qle_bool (death_threshold * (5 # 10)) (death_prob_of rl_FP_TC) = true) as ->.
    { apply Qle_bool_iff. lra. }
    assert (Qle_bool (survival_prob_of rl_FP_TC) (9 # 10) = true) as E.
    { apply Qle_bool_iff. lra. }
    unfold Qlt_bool. rewrite E. cbn [negb]. reflexivity.
  - assert (Qle_bool (death_threshold * (5 # 10)) (death_prob_of rl_FP_TC) = false) as ->.
    { apply Qle_bool_false. lra. }
    assert (Qle_bool (survival_prob_of rl_FP_TC) (9 # 10) = false) as E.
    { apply Qle_bool_false. lra. }
    unfold Qlt_bool. rewrite E. cbn [negb].
    destruct (action_c =? 0)%Z, (action_I =? 0)%Z; ring.
Qed.

End StepRegimes.

(** ** Invariants of runs *)

Lemma trajectory_all_zero (torch_exp : Q -> Q) (a b dose dt c0 : Q) (k : nat) :
  dose == 0 -> c0 == 0 ->
  Forall (fun x => x == 0) (trajectory (closed_form torch_exp a b dose dt) c0 k).
Proof.
  intros Hd. revert c0. induction k as [|k IH]; intros c0 Hc; [constructor |].
  assert (closed_form torch_exp a b dose dt c0 == 0) as H0.
  { unfold closed_form. rewrite Hd, Hc. unfold Qdiv. ring. }
  cbn [trajectory]. constructor; [exact H0 | by apply IH].
Qed.

Lemma vsum_all_zero (l : list Q) : Forall (fun x => x == 0) l -> vsum l == 0.
Proof.
  induction 1 as [|x l Hx _ IH]; [reflexivity |]. rewrite vsum_cons, Hx, IH. ring.
Qed.

Section RunInvariants.

Variable torch_exp : Q -> Q.
Variable torch_tanh : Q -> Q.

Lemma constructed_run calls self self' :
  constructed self ->
  run torch_exp torch_tanh self calls = Some self' -> constructed self'.
Proof.
  apply (run_invariant torch_exp torch_tanh constructed).
  - apply reset_constructed.
  - intros. by eapply step_constructed.
Qed.

(** X10.  After every run from a constructed environment (positive substep
    size) the dose-time [CSF1RI_dose_cum] is between [0] and the elapsed
    [time], so the factor of the time bonus is not negative. *)
Theorem dose_time_within_elapsed_time (model : RL_dNN) (initial : Q * Q * Q)
    (calls : list call) (self : Env) :
  0 < dt_cyto model ->
  run torch_exp torch_tanh (Env_init model initial) calls = Some self ->
  0 <= CSF1RI_dose_cum self /\ CSF1RI_dose_cum self <= time self.
Proof.
  intros Hdt Hrun.
  pose (P := fun e : Env =>
               constructed e /\ dt_cyto (surrogat_model e) = dt_cyto model /\
               0 <= CSF1RI_dose_cum e /\ CSF1RI_dose_cum e <= time e).
  assert (P self) as (_ & _ & H); [|exact H].
  apply (run_invariant torch_exp torch_tanh P) with (calls := calls)
                                                    (self := Env_init model initial);
    [| | |exact Hrun].
  - intros e (Hc & Hm & _). split; [by apply reset_constructed |].
    split; [exact Hm |]. cbn. lra.
  - intros e action_c action_I epi predict_dt cc lamda e' out (Hc & Hm & H0 & H1) Hstep.
    pose proof (step_constructed _ _ _ _ _ _ _ _ _ _ _ Hc Hstep) as Hc'.
    pose proof (step_interval_positive torch_exp torch_tanh e action_c action_I epi
                  predict_dt cc lamda _ ltac:(rewrite Hm; exact Hdt) Hstep) as Hpos.
    destruct (step_inv _ _ _ _ _ _ _ _ _ _ _ Hstep)
      as (dose_c & dose_I & c0 & cI0 & cT0 & rl & cum & cC & cI
          & Hdc & _ & _ & _ & _ & _ & _ & ->).
    split; [exact Hc' |]. split; [exact Hm |]. cbn.
    destruct Hc as (Hspace & _). rewrite Hspace in Hdc.
    destruct (py_index_two_values _ _ Hdc) as [-> | ->]; lra.
  - split; [apply Env_init_constructed |]. split; [done |]. cbn. lra.
Qed.

(** X2.  In a run from an environment with initial CSF1R-inhibitor
    concentration [0] whose steps all have [action_c = 0], every entry of the
    CSF1R-inhibitor history, the cumulative exposure [predict_CSF1RI_cum] and
    the dose-time [CSF1RI_dose_cum] stay zero. *)
Theorem no_CSF1RI_without_dose (model : RL_dNN) (i_IGF1RI i_TC : Q)
    (calls : list call) (self : Env) :
  never_doses_CSF1RI calls ->
  run torch_exp torch_tanh (Env_init model (0, i_IGF1RI, i_TC)) calls = Some self ->
  Forall (fun x => x == 0) (predict_CSF1RI_list self) /\
  predict_CSF1RI_cum self == 0 /\
  CSF1RI_dose_cum self == 0.
Proof.
  pose (P := fun e : Env =>
               constructed e /\ fst (fst (initial e)) = 0 /\
               Forall (fun x => x == 0) (predict_CSF1RI_list e) /\
               predict_CSF1RI_cum e == 0 /\ CSF1RI_dose_cum e == 0).
  intros Hcalls Hrun.
  assert (P self) as (_ & _ & H); [|exact H].
  assert (P (Env_init model (0, i_IGF1RI, i_TC))) as HP0.
  { split; [apply Env_init_constructed |]. split; [done |]. cbn.
    split; [by repeat constructor | split; reflexivity]. }
  revert HP0 Hrun. generalize (Env_init model (0, i_IGF1RI, i_TC)).
  induction Hcalls as [|call calls Hcall _ IH]; intros e HP Hrun.
  - by injection Hrun as <-.
  - destruct call as [|action_c action_I epi predict_dt cc lamda]; cbn [run] in Hrun.
    + apply (IH (reset e)); [|exact Hrun].
      destruct HP as (Hc & Hi & _). split; [by apply reset_constructed |].
      split; [exact Hi |]. cbn. rewrite Hi.
      split; [by repeat constructor | split; reflexivity].
    + subst action_c.
      destruct (step torch_exp torch_tanh e 0 action_I epi predict_dt cc lamda)
        as [[e' out]|] eqn:Hstep; [|done].
      cbn [mbind option_bind fst] in Hrun. apply (IH e'); [|exact Hrun].
      destruct HP as (Hc & Hi & Hall & Hcum & Hdose).
      pose proof (step_constructed _ _ _ _ _ _ _ _ _ _ _ Hc Hstep) as Hc'.
      destruct (step_inv _ _ _ _ _ _ _ _ _ _ _ Hstep)
        as (dose_c & dose_I & c0 & cI0 & cT0 & rl & cum & cC & cI
            & Hdc & _ & Hc0 & _ & _ & Hp & _ & ->).
      destruct Hc as (Hspace & _). rewrite Hspace in Hdc.
      injection Hdc as <-.
      assert (c0 == 0) as Hc0z.
      { unfold py_last in Hc0. apply last_Some in Hc0. destruct Hc0 as [l' El].
        rewrite El in Hall. apply Forall_app in Hall. destruct Hall as [_ Hl].
        by inversion Hl. }
      destruct (predict_kinetics _ _ _ _ _ _ _ _ _ _ _ _ _ _ _ _ _ Hp)
        as (_ & _ & -> & HcC & _).
      split; [exact Hc' |]. split; [exact Hi |]. cbn.
      pose proof (trajectory_all_zero torch_exp
                    (rate_a_CSF1RI torch_exp (surrogat_model e))
                    (rate_b_CSF1RI torch_exp (surrogat_model e)) 0
                    (dt_cyto (surrogat_model e)) c0) as Hz.
      split; [|split].
      * apply Forall_app. split; [exact Hall |]. constructor; [|constructor].
        rewrite HcC.
        set (k := Z.to_nat (py_int (predict_dt / dt_cyto (surrogat_model e)))).
        destruct k as [|k]; [exact Hc0z |].
        specialize (Hz (S k) ltac:(reflexivity) Hc0z).
        rewrite trajectory_snoc in Hz. apply Forall_app in Hz.
        destruct Hz as [_ Hz]. by inversion Hz.
      * rewrite Hcum, (vsum_all_zero _ (Hz _ ltac:(reflexivity) Hc0z)). ring.
      * rewrite Hdose. ring.
Qed.

End RunInvariants.

(** ** The tumor-cell expectation *)

Lemma vsum_times (c : Q) (row : list Q) :
  vsum (map (fun x => x * c) row) == c * vsum row.
Proof.
  induction row as [|x row IH]; cbn [map].
  - change (vsum []) with 0. ring.
  - rewrite !vsum_cons, IH. ring.
Qed.

Lemma weighted_sum_bounds (hi : Q) (v : list (list Q)) (c : list Q) :
  0 <= hi -> nonneg_rows v -> Forall (fun x => 0 <= x /\ x <= hi) c ->
  0 <= weighted_sum v c /\ weighted_sum v c <= hi * msum v.
Proof.
  intros Hhi Hv. revert c. unfold weighted_sum.
  induction Hv as [|row v Hrow Hv IH]; intros c Hc.
  - cbn [zip_with]. change (msum []) with 0. lra.
  - pose proof (vsum_nonneg row Hrow) as Hr.
    pose proof (msum_nonneg v Hv) as Hm.
    destruct Hc as [|c1 c [Hc0 Hc1] Hc]; cbn [zip_with].
    + change (msum []) with 0. rewrite msum_cons.
      pose proof (Qmult_le_0_compat _ _ Hhi Hr).
      pose proof (Qmult_le_0_compat _ _ Hhi Hm). lra.
    + rewrite !msum_cons, vsum_times. destruct (IH c Hc) as [IH0 IH1].
      pose proof (Qmult_le_0_compat _ _ Hc0 Hr).
      assert (c1 * vsum row <= hi * vsum row).
      { apply Qmult_le_compat_r; done. }
      lra.
Qed.

Section Expectation.

Variable torch_exp : Q -> Q.
Variable torch_tanh : Q -> Q.

(** X18.  With all bin values between [0] and [hi], the tumor-cell
    expectation that a returning step appends to [predict_TC_list] is between
    [0] and [hi]. *)
Theorem tumor_expectation_within_bins (self : Env) (action_c action_I epi : Z)
    (predict_dt : Q) (cc : list Q) (lamda hi : Q) (self' : Env)
    (out : list (Q * Q) * Q * bool * list (Q * Q)) :
  step torch_exp torch_tanh self action_c action_I epi predict_dt cc lamda
  = Some (self', out) ->
  Forall (fun c => 0 <= c /\ c <= hi) cc ->
  exists tc,
    predict_TC_list self' = predict_TC_list self ++ [tc] /\
    0 <= tc /\ tc <= hi.
Proof.
  intros Hstep Hcc.
  destruct (step_inv _ _ _ _ _ _ _ _ _ _ _ Hstep)
    as (dose_c & dose_I & c0 & cI0 & cT0 & rl & cum & cC & cI
        & _ & _ & _ & _ & _ & _ & Hrl & ->).
  destruct (step_density_shape _ _ _ _ _ _ _ _ Hrl) as [Hlen Hnn].
  destruct (step_density_substep _ _ _ _ _ _ _ _ Hrl) as (_ & _ & Hne).
  assert (0 <= hi) as Hhi.
  { destruct Hcc as [|c1 cc' [? ?] _]; [done | lra]. }
  eexists. split; [reflexivity |].
  unfold normalization. rewrite weighted_sum_scaled.
  destruct (weighted_sum_bounds hi rl cc Hhi Hnn Hcc) as [H0 H1].
  pose proof (msum_nonneg rl Hnn) as Hs. pose proof eps_positive as He.
  pose proof (Qmult_le_0_compat _ _ Hhi (Qlt_le_weak _ _ He)).
  split.
  - apply Qdiv_nonneg; [done | lra].
  - apply Qle_shift_div_r; [lra |]. lra.
Qed.

(** X4.  The density that [predict_DRL_FP] returns has one row per bin and
    each row has as many entries as the final layer of the network has
    output features. *)
Theorem density_rows_have_output_width (self : RL_dNN) (c : list Q)
    (t dose_c CSF1RI_cum dose_I c_CSF1RI_0 c_IGF1RI_0 c_T_0 interval : Q)
    (width : nat) self' uTC_pred CSF1RI_cum' c_CSF1RI_k c_IGF1RI_k :
  length (weight (final (dnn_TC self))) = width ->
  length (bias (final (dnn_TC self))) = width ->
  predict_DRL_FP torch_exp torch_tanh self c t dose_c CSF1RI_cum dose_I
    c_CSF1RI_0 c_IGF1RI_0 c_T_0 interval
  = Some (self', (uTC_pred, CSF1RI_cum', c_CSF1RI_k, c_IGF1RI_k)) ->
  length uTC_pred = length c /\
  Forall (fun row => length row = width) uTC_pred.
Proof.
  intros Hw Hb Hp. apply predict_DRL_FP_inv in Hp.
  destruct Hp as (_ & cs & ci & lc & li & _ & _ & _ & _ & _ & _ & _ & _ & ->).
  split.
  - rewrite length_clamp_negative. apply length_net_u_CC; apply length_broadcast.
  - unfold clamp_negative, net_u_CC, DNN_forward.
    apply Forall_forall. intros row Hrow.
    apply list_elem_of_In, in_map_iff in Hrow. destruct Hrow as (r & <- & Hr).
    apply in_map_iff in Hr. destruct Hr as (h & <- & _).
    rewrite length_map. unfold Linear_forward. rewrite length_zip_with.
    change (final (dnn_TC (eval_mode self))) with (final (dnn_TC self)). lia.
Qed.

End Expectation.

(** ** Episodes start alike *)

Section Episodes.

Variable torch_exp : Q -> Q.
Variable torch_tanh : Q -> Q.

Lemma predict_DRL_FP_mode self c t dose_c cum dose_I c0 cI0 cT0 interval :
  predict_DRL_FP torch_exp torch_tanh self c t dose_c cum dose_I c0 cI0 cT0 interval
  = predict_DRL_FP torch_exp torch_tanh (eval_mode self) c t dose_c cum dose_I
      c0 cI0 cT0 interval.
Proof. reflexivity. Qed.

(** Two environments that differ in the model object only, and there in
    the mode flag only, step alike. *)
Lemma step_mode st ac aI m1 m2 ini l1 l2 l3 cum dcum lss tm
    action_c action_I epi predict_dt cc lamda :
  eval_mode m1 = eval_mode m2 ->
  step torch_exp torch_tanh
    (mkEnv st ac aI m1 ini l1 l2 l3 cum dcum lss tm)
    action_c action_I epi predict_dt cc lamda
  = step torch_exp torch_tanh
      (mkEnv st ac aI m2 ini l1 l2 l3 cum dcum lss tm)
      action_c action_I epi predict_dt cc lamda.
Proof.
  intros Hm. unfold step.
  cbn [state action_c_space action_I_space surrogat_model initial
       predict_CSF1RI_list predict_IGF1RI_list predict_TC_list
       predict_CSF1RI_cum CSF1RI_dose_cum last_state_survival time].
  destruct (py_index ac action_c) as [dose_c|]; [|done].
  destruct (py_index aI action_I) as [dose_I|]; [|done].
  destruct (py_last l1) as [c0|]; [|done].
  destruct (py_last l2) as [cI0|]; [|done].
  destruct (py_last l3) as [cT0|]; [|done].
  cbn [mbind option_bind].
  rewrite (predict_DRL_FP_mode m1), (predict_DRL_FP_mode m2), Hm. reflexivity.
Qed.

(** X11.  After any run, [reset] gives an environment on which every
    [step] call returns what it returns on the freshly constructed
    environment, and leaves the same environment: nothing of an earlier
    episode reaches the next one. *)
Theorem reset_starts_episode_afresh (model : RL_dNN) (init : Q * Q * Q)
    (calls : list call) (self : Env) :
  run torch_exp torch_tanh (Env_init model init) calls = Some self ->
  forall action_c action_I epi predict_dt cc lamda,
    step torch_exp torch_tanh (reset self) action_c action_I epi predict_dt cc lamda
    = step torch_exp torch_tanh (Env_init model init)
        action_c action_I epi predict_dt cc lamda.
Proof.
  intros Hrun.
  pose (P := fun e : Env =>
               action_c_space e = [0; 1] /\ action_I_space e = [0; 1] /\
               initial e = init /\
               eval_mode (surrogat_model e) = eval_mode model).
  assert (P self) as (Hc & HI & Hini & Hm).
  { apply (run_invariant torch_exp torch_tanh P) with (calls := calls)
                                                      (self := Env_init model init);
      [| | |exact Hrun].
    - intros e H. exact H.
    - intros e action_c action_I epi predict_dt cc lamda e' out (Hc & HI & Hini & Hm) Hstep.
      destruct (step_inv _ _ _ _ _ _ _ _ _ _ _ Hstep)
        as (dose_c & dose_I & c0 & cI0 & cT0 & rl & cum & cC & cI
            & _ & _ & _ & _ & _ & _ & _ & ->).
      repeat split; done.
    - repeat split. }
  intros. unfold reset, Env_init. rewrite Hc, HI, Hini.
  by apply step_mode.
Qed.

End Episodes.

(** ** Survival rates to time and event lists *)

Lemma append_loop {A B : Type} (a : A) (b : B) (m k : nat) (t : list A) (e : list B) :
  for_range k m (fun (_ : nat) '(t, e) => Some (t ++ [a], e ++ [b])) (t, e)
  = Some (t ++ replicate m a, e ++ replicate m b).
Proof.
  revert k t e. induction m as [|m IH]; intros k t e.
  - cbn. by rewrite !app_nil_r.
  - cbn [for_range mbind option_bind]. rewrite IH.
    by rewrite <- !app_assoc.
Qed.

Lemma convert_loop (rest pre tl : list Q) (t e : list Z) (s : Z) :
  for_range (length pre) (length rest)
    (fun i '(time, event, survival_num) =>
       r ← (pre ++ rest ++ tl) !! i;
       let cut_num := (survival_num - Qfloor (r * 100))%Z in
       let cut_num := if (cut_num <? 0)%Z then 0%Z else cut_num in
       let survival_num := (survival_num - cut_num)%Z in
       '(time, event) ←
         for_range 0 (Z.to_nat cut_num)
           (fun j '(time, event) =>
              Some (time ++ [(Z.of_nat i + 1)%Z], event ++ [1%Z]))
           (time, event);
       Some (time, event, survival_num))
    (t, e, s)
  = Some (t ++ death_times (length pre) s rest,
          e ++ replicate (length (death_times (length pre) s rest)) 1%Z,
          survivors s rest).
Proof.
  revert pre t e s. induction rest as [|r rest IH]; intros pre t e s.
  - cbn. by rewrite !app_nil_r.
  - change ((r :: rest) ++ tl) with (r :: (rest ++ tl)).
    cbn [for_range length]. rewrite list_lookup_middle by done.
    cbn [mbind option_bind].
    rewrite (append_loop (Z.of_nat (length pre) + 1)%Z 1%Z). cbn [mbind option_bind].
    assert ((if (s - Qfloor (r * 100) <? 0)%Z then 0%Z else (s - Qfloor (r * 100))%Z)
            = (s - Z.min s (Qfloor (r * 100)))%Z) as ->.
    { destruct (Z.ltb_spec (s - Qfloor (r * 100)) 0); lia. }
    replace (s - (s - Z.min s (Qfloor (r * 100))))%Z
      with (Z.min s (Qfloor (r * 100))) by lia.
    specialize (IH (pre ++ [r])).
    rewrite length_app, Nat.add_1_r, <- app_assoc in IH. cbn [app] in IH.
    rewrite IH. cbn [death_times survivors foldl].
    rewrite length_app, length_replicate, replicate_add, <- !app_assoc. reflexivity.
Qed.

(** What [convert_to_time_event] returns, in closed form. *)
Lemma convert_to_time_event_closed (survival_rate : list Q) :
  let used := take (length survival_rate - 1) survival_rate in
  let n := Z.of_nat (length survival_rate) in
  convert_to_time_event survival_rate
  = Some (death_times 0 100 used ++ replicate (Z.to_nat (survivors 100 used)) n,
          replicate (length (death_times 0 100 used)) 1%Z
          ++ replicate (Z.to_nat (survivors 100 used)) 0%Z).
Proof.
  intros used n. unfold convert_to_time_event. fold n.
  pose proof (convert_loop used [] (drop (length survival_rate - 1) survival_rate)
                [] [] 100%Z) as H.
  cbn [app length] in H. unfold used in H at 2. rewrite take_drop in H.
  replace (Z.to_nat (n - 1)) with (length used).
  - rewrite H. cbn [mbind option_bind]. apply append_loop.
  - unfold used, n. rewrite length_take. lia.
Qed.

Lemma Qfloor_percent_nonneg (r : Q) : 0 <= r -> (0 <= Qfloor (r * 100))%Z.
Proof.
  intros Hr. change 0%Z with (Qfloor 0). apply Qfloor_resp_le. lra.
Qed.

Lemma survivors_le (s : Z) (rates : list Q) : (survivors s rates <= s)%Z.
Proof.
  revert s. induction rates as [|r rates IH]; intros s.
  - unfold survivors. cbn [foldl]. lia.
  - change (survivors s (r :: rates))
      with (survivors (Z.min s (Qfloor (r * 100))) rates).
    specialize (IH (Z.min s (Qfloor (r * 100)))). lia.
Qed.

Lemma survivors_nonneg (s : Z) (rates : list Q) :
  (0 <= s)%Z -> Forall (fun r => 0 <= r) rates -> (0 <= survivors s rates)%Z.
Proof.
  intros Hs Hr. revert s Hs. induction Hr as [|r rates Hr _ IH]; intros s Hs; [done |].
  change (survivors s (r :: rates))
    with (survivors (Z.min s (Qfloor (r * 100))) rates).
  apply IH. pose proof (Qfloor_percent_nonneg r Hr). lia.
Qed.

Lemma survivors_app (s : Z) (l1 l2 : list Q) :
  survivors s (l1 ++ l2) = survivors (survivors s l1) l2.
Proof. unfold survivors. apply foldl_app. Qed.

Lemma length_death_times (i : nat) (s : Z) (rates : list Q) :
  length (death_times i s rates) = Z.to_nat (s - survivors s rates).
Proof.
  revert i s. induction rates as [|r rates IH]; intros i s.
  - cbn. lia.
  - cbn [death_times]. rewrite length_app, length_replicate, IH.
    change (survivors s (r :: rates))
      with (survivors (Z.min s (Qfloor (r * 100))) rates).
    pose proof (survivors_le (Z.min s (Qfloor (r * 100))) rates). lia.
Qed.

Lemma death_times_range (i : nat) (s : Z) (rates : list Q) :
  Forall (fun t => Z.of_nat i + 1 <= t /\ t <= Z.of_nat i + Z.of_nat (length rates))%Z
    (death_times i s rates).
Proof.
  revert i s. induction rates as [|r rates IH]; intros i s; [constructor |].
  cbn [death_times length]. apply Forall_app. split.
  - apply Forall_replicate. lia.
  - eapply Forall_impl; [apply IH |]. cbn beta. intros t. lia.
Qed.

Lemma death_times_sorted (i : nat) (s : Z) (rates : list Q) :
  StronglySorted Z.le (death_times i s rates).
Proof.
  revert i s. induction rates as [|r rates IH]; intros i s; [constructor |].
  cbn [death_times].
  induction (Z.to_nat (s - Z.min s (Qfloor (r * 100)))) as [|m IHm]; [apply IH |].
  cbn [replicate app]. constructor; [exact IHm |].
  apply Forall_app. split.
  - apply Forall_replicate. lia.
  - eapply Forall_impl; [apply (death_times_range (S i))|]. cbn beta. intros t. lia.
Qed.

Lemma death_times_after (i : nat) (s : Z) (rates : list Q) (d : nat) :
  (i <= d < i + length rates)%nat ->
  length (filter (fun t => Z.of_nat d + 1 < t)%Z (death_times i s rates))
  = Z.to_nat (survivors s (take (S (d - i)) rates) - survivors s rates).
Proof.
  revert i s. induction rates as [|r rates IH]; intros i s Hd; [cbn in Hd; lia |].
  cbn [death_times length] in *. rewrite filter_app, length_app.
  set (s' := Z.min s (Qfloor (r * 100))).
  assert (filter (fun t => Z.of_nat d + 1 < t)%Z
            (replicate (Z.to_nat (s - s')) (Z.of_nat i + 1)%Z) = []) as ->.
  { induction (Z.to_nat (s - s')) as [|m IHm]; [done |].
    cbn [replicate]. rewrite filter_cons_False by lia. exact IHm. }
  cbn [length Nat.add take].
  change (survivors s (r :: take (d - i) rates)) with (survivors s' (take (d - i) rates)).
  change (survivors s (r :: rates)) with (survivors s' rates).
  destruct (decide (d = i)) as [->|Hne].
  - rewrite Nat.sub_diag, take_0.
    assert (filter (fun t => Z.of_nat i + 1 < t)%Z (death_times (S i) s' rates)
            = death_times (S i) s' rates) as ->.
    { pose proof (death_times_range (S i) s' rates) as Hr.
      induction Hr as [|t l Ht _ IHl]; [done |].
      rewrite filter_cons_True by lia. by rewrite IHl. }
    rewrite length_death_times. reflexivity.
  - rewrite IH by lia. replace (S (d - S i)) with (d - i)%nat by lia. reflexivity.
Qed.

(** X12.  [convert_to_time_event] always returns two lists of the same
    length with at least 100 entries, and exactly 100 when no rate before the
    last is negative. *)
Theorem convert_to_time_event_subjects (survival_rate : list Q) :
  exists time event,
    convert_to_time_event survival_rate = Some (time, event) /\
    length time = length event /\
    (100 <= length time)%nat /\
    (Forall (fun r => 0 <= r) (take (length survival_rate - 1) survival_rate) ->
     length time = 100%nat).
Proof.
  eexists _, _. split; [apply convert_to_time_event_closed |].
  set (used := take (length survival_rate - 1) survival_rate).
  rewrite !length_app, !length_replicate, length_death_times.
  pose proof (survivors_le 100 used).
  split; [done |]. split; [lia |].
  intros Hr. pose proof (survivors_nonneg 100 used ltac:(lia) Hr). lia.
Qed.

(** X13.  In the result of [convert_to_time_event] the events (flag [1])
    come first, with times from [1] to [len(survival_rate) - 1], followed by
    the censored subjects (flag [0]) at time [len(survival_rate)]; the times
    are in non-decreasing order. *)
Theorem convert_to_time_event_order (survival_rate : list Q) :
  exists deaths censored,
    convert_to_time_event survival_rate
    = Some (deaths ++ replicate censored (Z.of_nat (length survival_rate)),
            replicate (length deaths) 1%Z ++ replicate censored 0%Z) /\
    Forall (fun t => 1 <= t /\ t <= Z.of_nat (length survival_rate) - 1)%Z deaths /\
    StronglySorted Z.le
      (deaths ++ replicate censored (Z.of_nat (length survival_rate))).
Proof.
  set (used := take (length survival_rate - 1) survival_rate).
  exists (death_times 0 100 used), (Z.to_nat (survivors 100 used)).
  split; [apply convert_to_time_event_closed |].
  pose proof (death_times_range 0 100 used) as Hrange.
  assert (length used <= length survival_rate - 1)%nat as Hlen
    by (unfold used; rewrite length_take; lia).
  assert (Forall (fun t => 1 <= t /\ t <= Z.of_nat (length survival_rate) - 1)%Z
            (death_times 0 100 used)) as Hd.
  { eapply Forall_impl; [exact Hrange |]. cbn beta. intros t Ht.
    destruct (death_times 0 100 used) eqn:E; lia. }
  split; [exact Hd |].
  induction (death_times_sorted 0 100 used) as [|t l Hs IHs Ht].
  - cbn [app]. induction (Z.to_nat (survivors 100 used)) as [|m IHm]; [constructor |].
    cbn [replicate]. constructor; [exact IHm |]. apply Forall_replicate. lia.
  - cbn [app]. inversion Hd as [|? ? Ht1 Hd']; subst. inversion Hrange; subst.
    constructor; [by apply IHs |].
    apply Forall_app. split; [exact Ht |]. apply Forall_replicate. lia.
Qed.

(** The entries after day [d + 1] are the subjects left by then. *)
Lemma convert_survivors_after (survival_rate : list Q) (d : nat) :
  Forall (fun r => 0 <= r) survival_rate ->
  (d < length survival_rate - 1)%nat ->
  exists time event,
    convert_to_time_event survival_rate = Some (time, event) /\
    length (filter (fun t => Z.of_nat d + 1 < t)%Z time)
    = Z.to_nat (survivors 100 (take (S d) survival_rate)).
Proof.
  intros Hr Hd. eexists _, _. split; [apply convert_to_time_event_closed |].
  set (used := take (length survival_rate - 1) survival_rate).
  assert (length used = length survival_rate - 1)%nat as Hlen
    by (unfold used; rewrite length_take; lia).
  rewrite filter_app, length_app, death_times_after by lia.
  assert (filter (fun t => Z.of_nat d + 1 < t)%Z
            (replicate (Z.to_nat (survivors 100 used)) (Z.of_nat (length survival_rate)))
          = replicate (Z.to_nat (survivors 100 used)) (Z.of_nat (length survival_rate)))
    as ->.
  { induction (Z.to_nat (survivors 100 used)) as [|m IHm]; [done |].
    cbn [replicate]. rewrite filter_cons_True by lia. by rewrite IHm. }
  rewrite length_replicate, Nat.sub_0_r.
  assert (take (S d) used = take (S d) survival_rate) as E.
  { unfold used. rewrite take_take. f_equal. lia. }
  rewrite E.
  pose proof (survivors_nonneg 100 used ltac:(lia) ltac:(by apply Forall_take)) as H0.
  pose proof (survivors_le (survivors 100 (take (S d) survival_rate)) (drop (S d) used))
    as Hle.
  assert (survivors 100 used
          = survivors (survivors 100 (take (S d) survival_rate)) (drop (S d) used)) as Es.
  { rewrite <- E, <- survivors_app, take_drop. reflexivity. }
  rewrite <- Es in Hle. lia.
Qed.

(** X14.  For non-negative rates, the number of entries with a time after
    [d + 1] is the running minimum of [floor(100 * rate)] over the rates up
    to index [d], capped at 100. *)
Theorem convert_to_time_event_survivors (survival_rate : list Q) (d : nat) :
  Forall (fun r => 0 <= r) survival_rate ->
  (d < length survival_rate - 1)%nat ->
  exists time event,
    convert_to_time_event survival_rate = Some (time, event) /\
    length (filter (fun t => Z.of_nat d + 1 < t)%Z time)
    = Z.to_nat (survivors 100 (take (S d) survival_rate)).
Proof. apply convert_survivors_after. Qed.

(** X15.  The last survival rate is never read: two rate lists that differ
    in the last entry only give the same result; a single rate gives 100
    censored subjects at time [1] and no event. *)
Theorem convert_to_time_event_ignores_last_rate (survival_rate : list Q) (x y : Q) :
  convert_to_time_event (survival_rate ++ [x])
  = convert_to_time_event (survival_rate ++ [y]) /\
  convert_to_time_event [x] = Some (replicate 100 1%Z, replicate 100 0%Z).
Proof.
  split; [|reflexivity].
  rewrite !convert_to_time_event_closed, !length_app. cbn [length].
  rewrite !Nat.add_sub, !take_app_length. reflexivity.
Qed.

(** ** The survival-rate loop of [main] *)

Lemma setitem_middle (pre rest : list Q) (x y : Q) :
  setitem (pre ++ x :: rest) (length pre) y = Some (pre ++ y :: rest).
Proof.
  unfold setitem. rewrite length_app. cbn [length].
  destruct (decide (length pre < length pre + S (length rest))%nat) as [_|]; [|lia].
  rewrite insert_app_r_alt by lia. by rewrite Nat.sub_diag.
Qed.

Lemma survival_rate_loop_from (grace : Z) (rest pre : list Q) (prev : Q) :
  last pre = Some prev ->
  for_range (length pre) (length rest)
    (fun j rate =>
       rate ← (if (Z.of_nat j <=? grace)%Z then setitem rate j 1 else Some rate);
       rj ← rate !! j;
       rp ← rate !! (j - 1)%nat;
       if Qlt_bool rp rj then setitem rate j rp else Some rate)
    (pre ++ rest)
  = Some (pre ++ lowered grace (length pre) prev rest).
Proof.
  revert pre prev. induction rest as [|x rest IH]; intros pre prev Hlast; [done |].
  cbn [for_range length lowered].
  set (x1 := if (Z.of_nat (length pre) <=? grace)%Z then 1 else x).
  assert ((if (Z.of_nat (length pre) <=? grace)%Z
           then setitem (pre ++ x :: rest) (length pre) 1
           else Some (pre ++ x :: rest)) = Some (pre ++ x1 :: rest)) as ->.
  { unfold x1. destruct (Z.of_nat (length pre) <=? grace)%Z.
    - apply setitem_middle.
    - reflexivity. }
  cbn [mbind option_bind]. rewrite (list_lookup_middle pre rest x1 (length pre)) by reflexivity.
  cbn [mbind option_bind].
  assert ((pre ++ x1 :: rest) !! (length pre - 1)%nat = Some prev) as ->.
  { rewrite lookup_app_l.
    - rewrite last_lookup in Hlast. by replace (length pre - 1)%nat with (pred (length pre)) by lia.
    - destruct pre; [discriminate | cbn [length]; lia]. }
  cbn [mbind option_bind].
  set (x2 := if Qlt_bool prev x1 then prev else x1).
  assert ((if Qlt_bool prev x1 then setitem (pre ++ x1 :: rest) (length pre) prev
           else Some (pre ++ x1 :: rest)) = Some (pre ++ x2 :: rest)) as ->.
  { unfold x2. destruct (Qlt_bool prev x1); [|reflexivity]. apply setitem_middle. }
  cbn [mbind option_bind].
  specialize (IH (pre ++ [x2]) x2 (last_snoc _ _)).
  rewrite length_app, Nat.add_1_r, <- app_assoc in IH. cbn [app] in IH.
  rewrite IH, <- app_assoc. reflexivity.
Qed.

(** What the loop returns, in closed form. *)
Lemma main_survival_rate_loop_closed (grace : Z) (x : Q) (rest : list Q) :
  main_survival_rate_loop grace (x :: rest) = Some (1 :: lowered grace 1 1 rest).
Proof.
  unfold main_survival_rate_loop, setitem. cbn [length].
  destruct (decide (0 < S (length rest))%nat) as [_|]; [|lia].
  cbn [mbind option_bind insert list_insert].
  replace (length (1%Q :: rest) - 1)%nat with (length rest) by (cbn [length]; lia).
  apply (survival_rate_loop_from grace rest [1] 1). reflexivity.
Qed.

Lemma lowered_length grace j prev rest :
  length (lowered grace j prev rest) = length rest.
Proof.
  revert j prev. induction rest as [|x rest IH]; intros j prev; [done |].
  cbn [lowered length]. by rewrite IH.
Qed.

Lemma lowered_descending grace j prev rest :
  descending prev (lowered grace j prev rest).
Proof.
  revert j prev. induction rest as [|x rest IH]; intros j prev; [constructor |].
  cbn [lowered]. constructor; [|apply IH].
  destruct (Qlt_bool prev _) eqn:E; [apply Qle_refl |].
  unfold Qlt_bool in E. apply negb_false_iff, Qle_bool_iff in E. exact E.
Qed.

Lemma descending_lookup prev l :
  descending prev l ->
  (forall x, l !! 0%nat = Some x -> x <= prev) /\
  (forall j x y, l !! j = Some x -> l !! S j = Some y -> y <= x) /\
  Forall (fun x => x <= prev) l.
Proof.
  induction 1 as [prev|prev x l Hx Hd (IH0 & IH1 & IH2)].
  - repeat split; done.
  - split; [by intros ? [= <-] |]. split.
    + intros [|j] a b Ha Hb; cbn in Ha, Hb.
      * injection Ha as <-. by apply IH0.
      * by apply (IH1 j).
    + constructor; [done |]. eapply Forall_impl; [exact IH2 |].
      cbn beta. intros a Ha. lra.
Qed.

Lemma lowered_grace grace j rest k :
  (Z.of_nat (j + k) <= grace)%Z -> (k < length rest)%nat ->
  lowered grace j 1 rest !! k = Some 1.
Proof.
  revert j k. induction rest as [|x rest IH]; intros j k Hk Hlen; [cbn in Hlen; lia |].
  cbn [lowered].
  assert ((Z.of_nat j <=? grace)%Z = true) as -> by (apply Z.leb_le; lia).
  change (Qlt_bool 1 1) with false. cbn iota.
  destruct k as [|k]; [done |]. cbn [lookup list_lookup].
  apply IH; [|cbn in Hlen; lia]. lia.
Qed.

Lemma lowered_nonneg grace j prev rest :
  0 <= prev -> Forall (fun x => 0 <= x) rest ->
  Forall (fun x => 0 <= x) (lowered grace j prev rest).
Proof.
  intros Hp Hr. revert j prev Hp. induction Hr as [|x rest Hx _ IH]; intros j prev Hp;
    [constructor |].
  cbn [lowered].
  assert (0 <= (if Qlt_bool prev (if (Z.of_nat j <=? grace)%Z then 1 else x)
                then prev else if (Z.of_nat j <=? grace)%Z then 1 else x)) as H.
  { destruct (Qlt_bool prev _); [done |]. destruct (Z.of_nat j <=? grace)%Z; [lra | done]. }
  constructor; [exact H | by apply IH].
Qed.

(** The facts about the result of the loop, together. *)
Lemma main_survival_rate_loop_facts (grace : Z) (survival_rate out : list Q) :
  main_survival_rate_loop grace survival_rate = Some out ->
  length out = length survival_rate /\
  out !! 0%nat = Some 1 /\
  (forall j x y, out !! j = Some x -> out !! S j = Some y -> y <= x) /\
  Forall (fun x => x <= 1) out /\
  (forall j, (Z.of_nat j <= grace)%Z -> (j < length out)%nat -> out !! j = Some 1) /\
  (Forall (fun x => 0 <= x) survival_rate -> Forall (fun x => 0 <= x) out).
Proof.
  destruct survival_rate as [|x rest]; [done |].
  rewrite main_survival_rate_loop_closed. intros [= <-].
  pose proof (lowered_descending grace 1 1 rest) as Hd.
  destruct (descending_lookup _ _ Hd) as (H0 & H1 & H2).
  split; [cbn [length]; by rewrite lowered_length |]. split; [done |]. split.
  { intros [|j] a b Ha Hb; cbn in Ha, Hb.
    - injection Ha as <-. by apply H0.
    - by apply (H1 j). }
  split; [constructor; [apply Qle_refl | exact H2] |]. split.
  { intros [|j] Hj Hlen; [done |]. cbn [lookup list_lookup].
    apply lowered_grace; [lia |]. cbn [length] in Hlen. rewrite lowered_length in Hlen. lia. }
  intros Hr. inversion Hr; subst. constructor; [lra |].
  apply lowered_nonneg; [lra | done].
Qed.

(** X16.  The survival-rate loop of [main] raises on an empty array.
    Otherwise it returns an array of the same length whose first entry is
    [1], whose entries up to the index [grace] are [1], in which no entry
    exceeds its predecessor or [1], and which is non-negative when the input
    is. *)
Theorem main_survival_rate_loop_non_increasing (grace : Z) (survival_rate : list Q) :
  (survival_rate = [] -> main_survival_rate_loop grace survival_rate = None) /\
  (survival_rate <> [] ->
   exists out,
     main_survival_rate_loop grace survival_rate = Some out /\
     length out = length survival_rate /\
     out !! 0%nat = Some 1 /\
     (forall j x y, out !! j = Some x -> out !! S j = Some y -> y <= x) /\
     Forall (fun x => x <= 1) out /\
     (forall j, (Z.of_nat j <= grace)%Z -> (j < length out)%nat -> out !! j = Some 1) /\
     (Forall (fun x => 0 <= x) survival_rate -> Forall (fun x => 0 <= x) out)).
Proof.
  split; [by intros -> |]. intros Hne.
  destruct survival_rate as [|x rest]; [done |].
  eexists. split; [apply main_survival_rate_loop_closed |].
  apply (main_survival_rate_loop_facts grace (x :: rest)).
  apply main_survival_rate_loop_closed.
Qed.

(** ** The loop of [main] followed by [convert_to_time_event] *)

Lemma Qfloor_percent_le_100 (x : Q) : x <= 1 -> (Qfloor (x * 100) <= 100)%Z.
Proof.
  intros Hx. change (Qfloor (x * 100) <= Qfloor (100 # 1))%Z.
  apply Qfloor_resp_le. lra.
Qed.

Lemma survivors_snoc (s : Z) (l : list Q) (x : Q) :
  survivors s (l ++ [x]) = Z.min (survivors s l) (Qfloor (x * 100)).
Proof. by rewrite survivors_app. Qed.

Lemma survivors_of_non_increasing (l : list Q) (d : nat) (x : Q) :
  (forall j a b, l !! j = Some a -> l !! S j = Some b -> b <= a) ->
  Forall (fun x => x <= 1) l ->
  l !! d = Some x ->
  survivors 100 (take (S d) l) = Qfloor (x * 100).
Proof.
  intros Hdesc Hle. revert x. induction d as [|d IH]; intros x Hx.
  - rewrite (take_S_r l 0 x Hx), take_0. cbn [app].
    change (survivors 100 [x]) with (Z.min 100 (Qfloor (x * 100))).
    pose proof (Qfloor_percent_le_100 x
                  (proj1 (Forall_forall _ _) Hle x (list_elem_of_lookup_2 _ _ _ Hx))).
    lia.
  - destruct (l !! d) as [p|] eqn:Hp.
    + rewrite (take_S_r l (S d) x Hx), survivors_snoc, (IH p eq_refl).
      pose proof (Qfloor_resp_le _ _
                    (Qmult_le_compat_r _ _ 100 (Hdesc d p x Hp Hx) ltac:(lra))).
      lia.
    + apply lookup_ge_None in Hp. apply lookup_lt_Some in Hx. lia.
Qed.

(** X17.  After the survival-rate loop of [main], [convert_to_time_event]
    on non-negative rates returns exactly 100 subjects, and the number of
    entries with a time after [d + 1] is [floor(100 * rate[d])] of the
    returned rates. *)
Theorem survival_rate_loop_then_convert (grace : Z) (survival_rate out : list Q)
    (d : nat) (x : Q) :
  Forall (fun r => 0 <= r) survival_rate ->
  main_survival_rate_loop grace survival_rate = Some out ->
  (d < length out - 1)%nat ->
  out !! d = Some x ->
  exists time event,
    convert_to_time_event out = Some (time, event) /\
    length time = 100%nat /\ length event = 100%nat /\
    length (filter (fun t => Z.of_nat d + 1 < t)%Z time) = Z.to_nat (Qfloor (x * 100)).
Proof.
  intros Hr Hloop Hd Hx.
  destruct (main_survival_rate_loop_facts grace survival_rate out Hloop)
    as (_ & _ & Hdesc & Hle & _ & Hnn).
  specialize (Hnn Hr).
  destruct (convert_survivors_after out d Hnn Hd) as (time & event & Hconv & Hcount).
  exists time, event. split; [exact Hconv |].
  rewrite (survivors_of_non_increasing out d x Hdesc Hle Hx) in Hcount.
  rewrite convert_to_time_event_closed in Hconv. injection Hconv as <- <-.
  set (used := take (length out - 1) out).
  pose proof (survivors_le 100 used).
  pose proof (survivors_nonneg 100 used ltac:(lia) ltac:(by apply Forall_take)).
  rewrite !length_app, !length_replicate, length_death_times.
  split; [lia |]. split; [lia |]. exact Hcount.
Qed.

(** ** The input rows of the network *)

Lemma net_u_CC_forward (torch_tanh : Q -> Q) self C t dose_c dose_cum dose_I :
  net_u_CC torch_tanh self C t dose_c dose_cum dose_I
  = DNN_forward torch_tanh (dnn_TC self) (net_u_CC_input self C t dose_c dose_cum dose_I).
Proof. reflexivity. Qed.

Lemma rescale_within (l u x : Q) :
  l < u -> l <= x -> x <= u ->
  - (1) <= 2 * (x - l) / (u - l) - 1 /\ 2 * (x - l) / (u - l) - 1 <= 1.
Proof.
  intros Hlu Hl Hu.
  assert (0 <= 2 * (x - l) / (u - l)) by (apply Qdiv_nonneg; lra).
  assert (2 * (x - l) / (u - l) <= 2) by (apply Qle_shift_div_r; lra).
  lra.
Qed.

(** X5.  Every row of the matrix that [net_u_CC] hands to the network has
    the five entries [[t, C, dose_c, dose_cum, dose_I]], rescaled from the
    entries of the five columns at the same index; a time or bin value within
    its bounds [lb], [ub], a dose within [[0, 1]] and an exposure within
    [[0, CSF1RI_cum_max]] give an entry within [[-1, 1]]. *)
Theorem network_input_normalised (self : RL_dNN) (C t dose_c dose_cum dose_I : list Q)
    (i : nat) (row : list Q) :
  net_u_CC_input self C t dose_c dose_cum dose_I !! i = Some row ->
  exists t_i C_i dose_c_i dose_cum_i dose_I_i f_t f_C f_dose_c f_dose_cum f_dose_I,
    t !! i = Some t_i /\ C !! i = Some C_i /\ dose_c !! i = Some dose_c_i /\
    dose_cum !! i = Some dose_cum_i /\ dose_I !! i = Some dose_I_i /\
    row = [f_t; f_C; f_dose_c; f_dose_cum; f_dose_I] /\
    (snd (lb self) < snd (ub self) ->
     snd (lb self) <= t_i -> t_i <= snd (ub self) -> - (1) <= f_t /\ f_t <= 1) /\
    (fst (lb self) < fst (ub self) ->
     fst (lb self) <= C_i -> C_i <= fst (ub self) -> - (1) <= f_C /\ f_C <= 1) /\
    (0 <= dose_c_i -> dose_c_i <= 1 -> - (1) <= f_dose_c /\ f_dose_c <= 1) /\
    (0 < CSF1RI_cum_max self ->
     0 <= dose_cum_i -> dose_cum_i <= CSF1RI_cum_max self ->
     - (1) <= f_dose_cum /\ f_dose_cum <= 1) /\
    (0 <= dose_I_i -> dose_I_i <= 1 -> - (1) <= f_dose_I /\ f_dose_I <= 1).
Proof.
  unfold net_u_CC_input, cat_columns. intros H.
  apply lookup_zip_with_Some in H. destruct H as (ft & r1 & -> & Ht & H).
  apply lookup_zip_with_Some in H. destruct H as (fC & r2 & -> & HC & H).
  apply lookup_zip_with_Some in H. destruct H as (fd & r3 & -> & Hd & H).
  apply lookup_zip_with_Some in H. destruct H as (fcum & fI & -> & Hcum & HI).
  rewrite list_lookup_fmap_Some in Ht. destruct Ht as (t_i & -> & Ht).
  rewrite list_lookup_fmap_Some in HC. destruct HC as (C_i & -> & HC).
  rewrite list_lookup_fmap_Some in Hd. destruct Hd as (d_i & -> & Hd).
  rewrite list_lookup_fmap_Some in Hcum. destruct Hcum as (cum_i & -> & Hcum).
  rewrite list_lookup_fmap_Some in HI. destruct HI as (I_i & -> & HI).
  eexists t_i, C_i, d_i, cum_i, I_i, _, _, _, _, _.
  do 5 (split; [done |]). split; [reflexivity |].
  split; [intros; by apply rescale_within |].
  split; [intros; by apply rescale_within |].
  split; [intros; lra |].
  split; [|intros; lra].
  intros Hmax H0 H1.
  pose proof (rescale_within 0 (CSF1RI_cum_max self) cum_i Hmax H0 H1) as [Ha Hb].
  assert (2 * (cum_i - 0) / CSF1RI_cum_max self
          == 2 * (cum_i - 0) / (CSF1RI_cum_max self - 0)) as E.
  { assert (CSF1RI_cum_max self - 0 == CSF1RI_cum_max self) as -> by ring. reflexivity. }
  rewrite E. split; done.
Qed.

Section Returning.

Variable torch_exp : Q -> Q.
Variable torch_tanh : Q -> Q.

(** X19.  On an environment reached by any run, [step] returns exactly
    when both action indices are in [-2 .. 1] (Python indexing of the
    two-value action spaces), the substep size is not zero, the interval
    holds at least one substep and there is at least one bin; otherwise it
    raises. *)
Theorem step_returns_exactly_when (model : RL_dNN) (init : Q * Q * Q)
    (calls : list call) (self : Env)
    (action_c action_I epi : Z) (predict_dt : Q) (cc : list Q) (lamda : Q) :
  run torch_exp torch_tanh (Env_init model init) calls = Some self ->
  (is_Some (step torch_exp torch_tanh self action_c action_I epi predict_dt cc lamda)
   <-> (-2 <= action_c < 2)%Z /\ (-2 <= action_I < 2)%Z /\
       ~ dt_cyto model == 0 /\
       (1 <= py_int (predict_dt / dt_cyto model))%Z /\
       cc <> []).
Proof.
  intros Hrun.
  pose (P := fun e : Env =>
               constructed e /\ dt_cyto (surrogat_model e) = dt_cyto model).
  assert (P self) as (Hc & Hdt).
  { apply (run_invariant torch_exp torch_tanh P) with (calls := calls)
                                                      (self := Env_init model init);
      [| | |exact Hrun].
    - intros e (Hc & Hm). split; [by apply reset_constructed | exact Hm].
    - intros e a_c a_I ep dt bins lam e' out (Hc & Hm) Hstep.
      split; [by eapply step_constructed |].
      destruct (step_inv _ _ _ _ _ _ _ _ _ _ _ Hstep)
        as (dose_c & dose_I & c0 & cI0 & cT0 & rl & cum & cC & cI
            & _ & _ & _ & _ & _ & _ & _ & ->).
      exact Hm.
    - split; [apply Env_init_constructed | reflexivity]. }
  rewrite <- Hdt. by apply step_returns_iff.
Qed.

End Returning.

(** ** The properties above on concrete inputs *)

(** X1 at the third value of a three-substep trajectory. *)
Lemma integrator_values_geometric_witness :
  exists c x,
    f_CSF1RI exp_standin small_model 0 1 (3 # 48) = Some c /\
    c !! 2%nat = Some x /\
    x == rate_a_CSF1RI exp_standin small_model * 1
         / (rate_a_CSF1RI exp_standin small_model
            + rate_b_CSF1RI exp_standin small_model)
         + (0 - rate_a_CSF1RI exp_standin small_model * 1
                / (rate_a_CSF1RI exp_standin small_model
                   + rate_b_CSF1RI exp_standin small_model))
           * exp_standin
               (- (rate_a_CSF1RI exp_standin small_model
                   + rate_b_CSF1RI exp_standin small_model) * (1 # 48)) ^ 3.
Proof.
  destruct (f_CSF1RI exp_standin small_model 0 1 (3 # 48)) as [c|] eqn:Hc;
    [|vm_compute in Hc; discriminate].
  destruct (c !! 2%nat) as [x|] eqn:Hx;
    [|vm_compute in Hc; injection Hc as <-; discriminate].
  exists c, x. split; [reflexivity |]. split; [exact Hx |].
  exact (proj1 (integrator_values_geometric exp_standin small_model 0 1 0 (3 # 48))
           c Hc 2%nat x Hx).
Defined.

(** X3 on four bins and an interval of one substep. *)
Lemma predict_DRL_FP_pharmacokinetics_witness :
  exists self' uTC_pred CSF1RI_cum' c_CSF1RI_k c_IGF1RI_k,
    predict_DRL_FP exp_standin tanh_standin small_model [18; 2; 2; 2]
      (1 # 48) 1 0 0 0 0 (58 # 100) (1 # 48)
    = Some (self', (uTC_pred, CSF1RI_cum', c_CSF1RI_k, c_IGF1RI_k)) /\
    c_CSF1RI_k
    == Nat.iter 1 (closed_form exp_standin (rate_a_CSF1RI exp_standin small_model)
                     (rate_b_CSF1RI exp_standin small_model) 1 (1 # 48)) 0.
Proof.
  destruct (predict_DRL_FP exp_standin tanh_standin small_model [18; 2; 2; 2]
              (1 # 48) 1 0 0 0 0 (58 # 100) (1 # 48))
    as [[m [[[u cum] cC] cI]]|] eqn:Hp; [|vm_compute in Hp; discriminate].
  exists m, u, cum, cC, cI. split; [reflexivity |].
  exact (proj1 (proj2 (proj2 (proj2
           (predict_DRL_FP_pharmacokinetics exp_standin tanh_standin small_model _ _ _ _ _
              _ _ _ _ _ _ _ _ _ Hp))))).
Defined.

(** X4 on the one-output network of [small_model]. *)
Lemma density_rows_have_output_width_witness :
  exists self' uTC_pred CSF1RI_cum' c_CSF1RI_k c_IGF1RI_k,
    predict_DRL_FP exp_standin tanh_standin small_model [18; 2; 2; 2]
      (1 # 48) 1 0 0 0 0 (58 # 100) (1 # 48)
    = Some (self', (uTC_pred, CSF1RI_cum', c_CSF1RI_k, c_IGF1RI_k)) /\
    length uTC_pred = 4%nat /\
    Forall (fun row => length row = 1%nat) uTC_pred.
Proof.
  destruct (predict_DRL_FP exp_standin tanh_standin small_model [18; 2; 2; 2]
              (1 # 48) 1 0 0 0 0 (58 # 100) (1 # 48))
    as [[m [[[u cum] cC] cI]]|] eqn:Hp; [|vm_compute in Hp; discriminate].
  exists m, u, cum, cC, cI. split; [reflexivity |].
  exact (density_rows_have_output_width exp_standin tanh_standin small_model _ _ _ _ _
           _ _ _ _ 1%nat _ _ _ _ _ eq_refl eq_refl Hp).
Defined.

(** X5 on one row: time [100], bin [1], doses [1], [0], exposure [4800]. *)
Lemma network_input_normalised_witness :
  exists row f_t f_C f_dose_c f_dose_cum f_dose_I,
    net_u_CC_input small_model [1] [100] [1] [4800] [0] !! 0%nat = Some row /\
    row = [f_t; f_C; f_dose_c; f_dose_cum; f_dose_I] /\
    (- (1) <= f_t /\ f_t <= 1) /\ (- (1) <= f_C /\ f_C <= 1).
Proof.
  destruct (network_input_normalised small_model [1] [100] [1] [4800] [0] 0%nat _ eq_refl)
    as (t_i & C_i & d_i & cum_i & I_i & f_t & f_C & f_d & f_cum & f_I
        & Ht & HC & _ & _ & _ & Hrow & Hft & HfC & _).
  injection Ht as <-. injection HC as <-.
  eexists _, f_t, f_C, f_d, f_cum, f_I. split; [reflexivity |]. split; [exact Hrow |].
  split.
  - apply Hft; vm_compute; (reflexivity || discriminate).
  - apply HfC; vm_compute; (reflexivity || discriminate).
Defined.

(** X2 on a step without the CSF1R inhibitor, a reset and another step. *)
Lemma no_CSF1RI_without_dose_witness :
  exists self,
    run exp_standin tanh_standin (Env_init small_model (0, 0, 58 # 100))
      [CallStep 0 1 0 (1 # 48) [2] 0; CallReset;
       CallStep 0 0 1 (1 # 48) [2] 0] = Some self /\
    Forall (fun x => x == 0) (predict_CSF1RI_list self) /\
    predict_CSF1RI_cum self == 0 /\ CSF1RI_dose_cum self == 0.
Proof.
  destruct (run exp_standin tanh_standin (Env_init small_model (0, 0, 58 # 100))
              [CallStep 0 1 0 (1 # 48) [2] 0; CallReset;
               CallStep 0 0 1 (1 # 48) [2] 0]) as [self|] eqn:Hrun;
    [|vm_compute in Hrun; discriminate].
  exists self. split; [reflexivity |].
  eapply (no_CSF1RI_without_dose exp_standin tanh_standin small_model 0 (58 # 100));
    [|exact Hrun].
  repeat constructor.
Defined.

(** X6 on the density [[17, 1, 1, 1]]. *)
Lemma step_probabilities_in_range_witness :
  exists rl_FP_TC,
    step_density exp_standin tanh_standin small_env 1 1 (1 # 48) [18; 2; 2; 2]
    = Some rl_FP_TC /\
    0 <= survival_prob_of rl_FP_TC /\ survival_prob_of rl_FP_TC <= 1.
Proof.
  destruct (step_density exp_standin tanh_standin small_env 1 1 (1 # 48) [18; 2; 2; 2])
    as [rl|] eqn:Hrl; [|vm_compute in Hrl; discriminate].
  exists rl. split; [reflexivity |].
  destruct (step_probabilities_in_range exp_standin tanh_standin small_env 1 1 (1 # 48)
              [18; 2; 2; 2] rl Hrl) as (H0 & H1 & _).
  by split.
Defined.

(** X7 on three bins. *)
Lemma few_bins_always_terminal_witness :
  exists rl_FP_TC self' last_state now_state,
    step_density exp_standin tanh_standin small_env 1 1 (1 # 48) [18; 2; 2]
    = Some rl_FP_TC /\
    step exp_standin tanh_standin small_env 1 1 0 (1 # 48) [18; 2; 2] 0
    = Some (self', (last_state, - (1 # 10), true, now_state)).
Proof.
  destruct (step_density exp_standin tanh_standin small_env 1 1 (1 # 48) [18; 2; 2])
    as [rl|] eqn:Hrl; [|vm_compute in Hrl; discriminate].
  destruct (few_bins_always_terminal exp_standin tanh_standin small_env 1 1 0 (1 # 48)
              [18; 2; 2] 0 rl Hrl ltac:(cbn; lia))
    as (_ & self' & last_state & now_state & Hstep).
  exists rl, self', last_state, now_state. by split.
Defined.

(** X8 on the density [[100, 0, 0, 0]]: the cure branch. *)
Lemma step_terminal_exactly_when_witness :
  exists rl_FP_TC self' last_state reward done now_state,
    step_density exp_standin tanh_standin small_env 1 0 (1 # 48) [101; 1; 1; 1]
    = Some rl_FP_TC /\
    step exp_standin tanh_standin small_env 1 0 0 (1 # 48) [101; 1; 1; 1] 0
    = Some (self', (last_state, reward, done, now_state)) /\
    (99 # 100) <= cure_prob_of rl_FP_TC /\
    done = true /\ reward = 11 # 10.
Proof.
  destruct (step_density exp_standin tanh_standin small_env 1 0 (1 # 48) [101; 1; 1; 1])
    as [rl|] eqn:Hrl; [|vm_compute in Hrl; discriminate].
  assert ((99 # 100) <= cure_prob_of rl) as Hcure.
  { vm_compute in Hrl. injection Hrl as <-. vm_compute. discriminate. }
  destruct (step_terminal_exactly_when exp_standin tanh_standin small_env 1 0 0 (1 # 48)
              [101; 1; 1; 1] 0 rl Hrl)
    as (self' & last_state & reward & done & now_state & Hstep & _ & _ & Hiff).
  assert (4 <= length [101; 1; 1; 1])%nat as Hbins by (cbn [length]; lia).
  destruct (proj2 Hiff (conj Hbins Hcure)) as [Hdone Hreward].
  exists rl, self', last_state, reward, done, now_state. auto.
Defined.

(** X9 on the density [[17, 1, 1, 1]]: the penalty regime. *)
Lemma running_reward_two_regimes_witness :
  exists rl_FP_TC self' last_state reward now_state,
    step_density exp_standin tanh_standin small_env 0 1 (1 # 48) [18; 2; 2; 2]
    = Some rl_FP_TC /\
    death_prob_of rl_FP_TC < 2 # 10 /\ cure_prob_of rl_FP_TC < 99 # 100 /\
    (1 # 10) <= death_prob_of rl_FP_TC /\
    step exp_standin tanh_standin small_env 0 1 0 (1 # 48) [18; 2; 2; 2] 0
    = Some (self', (last_state, reward, false, now_state)) /\
    reward == (1 # 10) - (1 # 10) * (dose_punish_of small_env - inject_Z 0)
                       - (1 # 10) * (dose_punish_of small_env - inject_Z 1).
Proof.
  destruct (step_density exp_standin tanh_standin small_env 0 1 (1 # 48) [18; 2; 2; 2])
    as [rl|] eqn:Hrl; [|vm_compute in Hrl; discriminate].
  assert (death_prob_of rl < 2 # 10 /\ cure_prob_of rl < 99 # 100
          /\ (1 # 10) <= death_prob_of rl) as (Hdeath & Hcure & Hhalf).
  { vm_compute in Hrl. injection Hrl as <-.
    repeat split; vm_compute; (reflexivity || discriminate). }
  destruct (running_reward_two_regimes exp_standin tanh_standin small_env 0 1 0 (1 # 48)
              [18; 2; 2; 2] 0 rl Hrl Hdeath Hcure)
    as (self' & last_state & reward & now_state & Hstep & Hpen & _).
  exists rl, self', last_state, reward, now_state. auto 10.
Defined.

(** X10 after an undosed step, a reset and a dosed step. *)
Lemma dose_time_within_elapsed_time_witness :
  0 < dt_cyto small_model /\
  exists self,
    run exp_standin tanh_standin (Env_init small_model (0, 0, 58 # 100))
      [CallStep 0 0 0 (1 # 48) [2] 0; CallReset;
       CallStep 1 0 1 (1 # 48) [2] 0] = Some self /\
    0 <= CSF1RI_dose_cum self /\ CSF1RI_dose_cum self <= time self.
Proof.
  assert (0 < dt_cyto small_model) as Hdt by reflexivity.
  split; [exact Hdt |].
  destruct (run exp_standin tanh_standin (Env_init small_model (0, 0, 58 # 100))
              [CallStep 0 0 0 (1 # 48) [2] 0; CallReset;
               CallStep 1 0 1 (1 # 48) [2] 0]) as [self|] eqn:Hrun;
    [|vm_compute in Hrun; discriminate].
  exists self. split; [reflexivity |].
  exact (dose_time_within_elapsed_time exp_standin tanh_standin small_model
           (0, 0, 58 # 100) _ self Hdt Hrun).
Defined.

(** X11 after one step. *)
Lemma reset_starts_episode_afresh_witness :
  exists self,
    run exp_standin tanh_standin (Env_init small_model (0, 0, 58 # 100))
      [CallStep 1 0 0 (1 # 48) [2] 0] = Some self /\
    step exp_standin tanh_standin (reset self) 0 1 0 (1 # 48) [2] 0
    = step exp_standin tanh_standin (Env_init small_model (0, 0, 58 # 100))
        0 1 0 (1 # 48) [2] 0.
Proof.
  destruct (run exp_standin tanh_standin (Env_init small_model (0, 0, 58 # 100))
              [CallStep 1 0 0 (1 # 48) [2] 0]) as [self|] eqn:Hrun;
    [|vm_compute in Hrun; discriminate].
  exists self. split; [reflexivity |].
  apply (reset_starts_episode_afresh exp_standin tanh_standin small_model
           (0, 0, 58 # 100) _ self Hrun).
Defined.

(** X12 on four rates. *)
Lemma convert_to_time_event_subjects_witness :
  exists time event,
    convert_to_time_event [1; 95 # 100; 1 # 2; 2 # 10] = Some (time, event) /\
    length time = 100%nat.
Proof.
  destruct (convert_to_time_event_subjects [1; 95 # 100; 1 # 2; 2 # 10])
    as (time & event & Hconv & _ & _ & H100).
  exists time, event. split; [exact Hconv |]. apply H100.
  repeat constructor; discriminate.
Defined.

(** X14 on four rates, after the second day. *)
Lemma convert_to_time_event_survivors_witness :
  exists time event,
    convert_to_time_event [1; 95 # 100; 1 # 2; 2 # 10] = Some (time, event) /\
    length (filter (fun t => 1 + 1 < t)%Z time) = 95%nat.
Proof.
  apply (convert_to_time_event_survivors [1; 95 # 100; 1 # 2; 2 # 10] 1).
  - repeat constructor; discriminate.
  - cbn. lia.
Defined.

(** X16 on four rates with one day of grace. *)
Lemma main_survival_rate_loop_non_increasing_witness :
  exists out,
    main_survival_rate_loop 1 [9 # 10; 8 # 10; 95 # 100; 1 # 2] = Some out /\
    length out = 4%nat /\ out !! 0%nat = Some 1 /\ Forall (fun x => x <= 1) out.
Proof.
  destruct (proj2 (main_survival_rate_loop_non_increasing 1
                     [9 # 10; 8 # 10; 95 # 100; 1 # 2]) ltac:(discriminate))
    as (out & Hloop & Hlen & H0 & _ & Hle & _).
  exists out. auto.
Defined.

(** X17 on four rates with one day of grace, after the third day. *)
Lemma survival_rate_loop_then_convert_witness :
  exists out time event,
    main_survival_rate_loop 1 [9 # 10; 8 # 10; 95 # 100; 1 # 2] = Some out /\
    out !! 2%nat = Some (95 # 100) /\
    convert_to_time_event out = Some (time, event) /\
    length time = 100%nat /\
    length (filter (fun t => 2 + 1 < t)%Z time) = 95%nat.
Proof.
  destruct (main_survival_rate_loop 1 [9 # 10; 8 # 10; 95 # 100; 1 # 2])
    as [out|] eqn:Hloop; [|vm_compute in Hloop; discriminate].
  assert (out !! 2%nat = Some (95 # 100)) as Hx.
  { vm_compute in Hloop. injection Hloop as <-. reflexivity. }
  assert (2 < length out - 1)%nat as Hd.
  { vm_compute in Hloop. injection Hloop as <-. cbn. lia. }
  destruct (survival_rate_loop_then_convert 1 [9 # 10; 8 # 10; 95 # 100; 1 # 2] out 2
              (95 # 100) ltac:(repeat constructor; discriminate) Hloop Hd Hx)
    as (time & event & Hconv & Hlen & _ & Hcount).
  exists out, time, event. auto.
Defined.

(** X18 on two bins between [0] and [3]. *)
Lemma tumor_expectation_within_bins_witness :
  exists self' out tc,
    step exp_standin tanh_standin small_env 1 1 0 (1 # 48) [3; 2] 0
    = Some (self', out) /\
    predict_TC_list self' = predict_TC_list small_env ++ [tc] /\
    0 <= tc /\ tc <= 3.
Proof.
  destruct (step exp_standin tanh_standin small_env 1 1 0 (1 # 48) [3; 2] 0)
    as [[self' out]|] eqn:Hstep; [|vm_compute in Hstep; discriminate].
  destruct (tumor_expectation_within_bins exp_standin tanh_standin small_env 1 1 0
              (1 # 48) [3; 2] 0 3 self' out Hstep)
    as (tc & Htc & H0 & H1).
  - repeat constructor; discriminate.
  - exists self', out, tc. auto.
Defined.

(** X19 after one step: a step with the action index [2] raises. *)
Lemma step_returns_exactly_when_witness :
  exists self,
    run exp_standin tanh_standin (Env_init small_model (0, 0, 58 # 100))
      [CallStep 1 0 0 (1 # 48) [2] 0] = Some self /\
    step exp_standin tanh_standin self 2 0 0 (1 # 48) [2] 0 = None.
Proof.
  destruct (run exp_standin tanh_standin (Env_init small_model (0, 0, 58 # 100))
              [CallStep 1 0 0 (1 # 48) [2] 0]) as [self|] eqn:Hrun;
    [|vm_compute in Hrun; discriminate].
  exists self. split; [reflexivity |].
  pose proof (step_returns_exactly_when exp_standin tanh_standin small_model
                (0, 0, 58 # 100) _ self 2 0 0 (1 # 48) [2] 0 Hrun) as Hiff.
  destruct (step exp_standin tanh_standin self 2 0 0 (1 # 48) [2] 0)
    as [r|]; [|reflexivity].
  destruct (proj1 Hiff (ex_intro _ r eq_refl)) as [Hidx _]. lia.
Defined.
